(** * inertial_to_blender: input adapter and trajectory pipeline

    A shallow embedding of [src/input_manager.py] and of the entry point
    [get_positions_times] of [src/__init__.py].

    Numbers are kept abstract: every definition is stated over a carrier
    [R] equipped with the operations the Python code applies to numpy
    floats (class [Scalar]).  Nothing is assumed about these operations, so
    each result holds for IEEE doubles as well as for the integers used in
    the examples.  A numpy matrix is a list of rows; a 3xN series has three
    rows of N samples each.  Python exceptions are values of [Error], and
    fallible code lives in the monad [Result]. *)

From Stdlib Require Import ZArith Lia Ascii String.
From stdpp Require Import base option list strings.

Local Open Scope string_scope.
Local Open Scope Z_scope.

(** ** Scalars *)

Class Scalar (R : Type) := {
  zero : R;
  nan : R;
  of_Z : Z → R;
  add : R → R → R;
  sub : R → R → R;
  mul : R → R → R;
  div : R → R → R;
  sqrt : R → R;
  ltb : R → R → bool;
  isnan : R → bool
}.

(** The integers, with truncating division and no missing values; used to
    run the definitions on concrete recordings. *)
#[export] Instance Z_scalar : Scalar Z := {|
  zero := 0;
  nan := 0;
  of_Z := λ z, z;
  add := Z.add;
  sub := Z.sub;
  mul := Z.mul;
  div := Z.div;
  sqrt := Z.sqrt;
  ltb := Z.ltb;
  isnan := λ _, false
|}.

(** ** Exceptions and the error monad *)

Inductive Error : Type :=
  | Exception (msg : string)
  | KeyError (column : string)
  | IndexError
  | TypeError
  | ValueError
  | ZeroDivisionError
  | FileNotFoundError
  | StationaryNotFoundError
  | OrderingError
  | LibraryError (origin : string).

Inductive Result (A : Type) : Type :=
  | Ok (a : A)
  | Raise (e : Error).
Arguments Ok {A} a.
Arguments Raise {A} e.

#[export] Instance Result_ret : MRet Result := λ A a, Ok a.
#[export] Instance Result_bind : MBind Result := λ A B f m,
  match m with
  | Ok a => f a
  | Raise e => Raise e
  end.
#[export] Instance Result_fmap : FMap Result := λ A B f m,
  match m with
  | Ok a => Ok (f a)
  | Raise e => Raise e
  end.

Definition of_option {A} (e : Error) (o : option A) : Result A :=
  match o with
  | Some a => Ok a
  | None => Raise e
  end.

Definition succeeds {A} (m : Result A) : Prop := ∃ a, m = Ok a.

(** The four messages [parse_input] raises, grouped in the two kinds of the
    error-handling design. *)
Definition slice_start_error : Error := Exception "Slice start must be positive".
Definition slice_end_error : Error := Exception "Slice end must not exceed dataframe rows".
Definition not_accepted_error : Error := Exception "Not accepted format".
Definition unrecognized_error : Error := Exception "Unrecognized input format".

Definition is_slice_error (e : Error) : Prop :=
  e = slice_start_error ∨ e = slice_end_error.
Definition is_format_error (e : Error) : Prop :=
  e = not_accepted_error ∨ e = unrecognized_error.

(** ** Python built-ins used by the adapter *)

(** [s.find(sub)]: index of the first occurrence, or -1. *)
Definition find (s sub : string) : Z :=
  match String.index 0 sub s with
  | Some n => Z.of_nat n
  | None => -1
  end.

Definition tab : ascii := ascii_of_nat 9.
Definition hash_tab : string := String "#" (String tab EmptyString).

Definition char_in (chars : string) (c : ascii) : bool :=
  bool_decide (c ∈ list_ascii_of_string chars).

Fixpoint lstrip_list (chars : string) (l : list ascii) : list ascii :=
  match l with
  | [] => []
  | c :: l' => if char_in chars c then lstrip_list chars l' else l
  end.

(** [s.strip(chars)]: drop the leading and the trailing characters that
    belong to [chars]. *)
Definition strip (chars s : string) : string :=
  string_of_list_ascii
    (rev (lstrip_list chars (rev (lstrip_list chars (list_ascii_of_string s))))).

(** [x is not None and p(x)] *)
Definition not_none_and {A} (x : option A) (p : A → bool) : bool :=
  match x with
  | Some a => p a
  | None => false
  end.

(** One bound of a slice [l[a:b]], clamped the way Python does it for a
    sequence of [len] items: [None] takes the default, a negative bound
    counts from the end. *)
Definition slice_bound (len : nat) (dflt : nat) (b : option Z) : nat :=
  match b with
  | None => dflt
  | Some z =>
      if z <? 0 then Z.to_nat (Z.max 0 (Z.of_nat len + z))
      else Nat.min (Z.to_nat z) len
  end.

Definition py_slice {A} (start stop : option Z) (l : list A) : list A :=
  let a := slice_bound (length l) 0%nat start in
  let b := slice_bound (length l) (length l) stop in
  drop a (take b l).

(** ** Matrices *)

Abbreviation Mat R := (list (list R)) (only parsing).

(** [m.shape == (r, c)] *)
Definition shape {R} (m : Mat R) (r c : nat) : Prop :=
  length m = r ∧ Forall (λ row, length row = c) m.

(** [m[k, i]] *)
Definition entry {R} (m : Mat R) (k i : nat) : option R :=
  row ← m !! k; row !! i.

(** [m.T] for a matrix given by its [n] rows of [c] cells each. *)
Fixpoint transpose_rows {R} `{!Scalar R} (c : nat) (rows : list (list R)) : Mat R :=
  match c with
  | O => []
  | S c' => map (λ row, default nan (head row)) rows :: transpose_rows c' (map (drop 1) rows)
  end.

(** [np.array(tuples).T] for a list of [c]-tuples: one row per component,
    and for no tuple at all the empty one-dimensional array, which has no
    row. *)
Definition array_T {R} `{!Scalar R} (c : nat) (tuples : list (list R)) : Mat R :=
  match tuples with
  | [] => []
  | _ :: _ => transpose_rows c tuples
  end.

(** ** Data frames *)

Record DataFrame (R : Type) : Type := {
  df_columns : list string;
  df_rows : list (list R)
}.
Arguments df_columns {R} d.
Arguments df_rows {R} d.

Section Frame.
Context {R : Type} `{!Scalar R}.

(** [df.shape[0]] and [df.shape[1]] *)
Definition shape0 (df : DataFrame R) : nat := length (df_rows df).
Definition shape1 (df : DataFrame R) : nat := length (df_columns df).

(** [df.isnull().values.any()] *)
Definition isnull_any (df : DataFrame R) : bool :=
  existsb (existsb isnan) (df_rows df).

Fixpoint column_index (name : string) (names : list string) : option nat :=
  match names with
  | [] => None
  | n :: names' =>
      if String.eqb n name then Some 0%nat else S <$> column_index name names'
  end.

Definition cell (i : nat) (row : list R) : R := default nan (row !! i).

(** [df[name].values.T]: a missing column raises [KeyError]; a cell the
    row lacks reads as NaN. *)
Definition col_values (df : DataFrame R) (name : string) : Result (list R) :=
  i ← of_option (KeyError name) (column_index name (df_columns df));
  mret (map (cell i) (df_rows df)).

(** [df[[n1, n2, ...]].values.T]: one row of the result per name. *)
Definition cols_values (df : DataFrame R) (names : list string) : Result (Mat R) :=
  mapM (col_values df) names.

(** [df[start:stop]] *)
Definition slice_rows (start stop : option Z) (df : DataFrame R) : DataFrame R :=
  {| df_columns := df_columns df; df_rows := py_slice start stop (df_rows df) |}.

(** [df.dropna(subset=[name])] *)
Definition dropna (df : DataFrame R) (name : string) : Result (DataFrame R) :=
  i ← of_option (KeyError name) (column_index name (df_columns df));
  mret {| df_columns := df_columns df;
          df_rows := filter (λ row, isnan (cell i row) = false) (df_rows df) |}.
End Frame.

(** ** [input_manager.py] *)

Inductive InputType : Type :=
  | ACCELERATION
  | FULLINERTIAL
  | GNSS
  | GYROSCOPE
  | INERTIAL
  | UNMOD_FULLINERTIAL
  | UNMOD_INERTIAL
  | UNRECOGNIZED.

#[export] Instance InputType_eq_dec : EqDecision InputType.
Proof. solve_decision. Defined.

Definition all_input_types : list InputType :=
  [ACCELERATION; FULLINERTIAL; GNSS; GYROSCOPE; INERTIAL;
   UNMOD_FULLINERTIAL; UNMOD_INERTIAL; UNRECOGNIZED].

(** What [get_vectors] hands back: a 4-tuple, a 6-tuple, or Python's [None]
    when the function falls off its end. *)
Inductive Vectors (R : Type) : Type :=
  | Inertial (times gps_speed : list R) (accelerations angular_velocities : Mat R)
  | FullInertial (times : list R) (coordinates : Mat R) (altitudes gps_speed : list R)
      (accelerations angular_velocities : Mat R)
  | PyNone.
Arguments Inertial {R}.
Arguments FullInertial {R}.
Arguments PyNone {R}.

Section InputManager.
Context {R : Type} `{!Scalar R}.

(** [scipy.interpolate.interp1d(x, y, kind='quadratic',
    fill_value='extrapolate')]: the fitted function, or nothing when the
    library rejects the data. *)
Variable interp1d : list R → Mat R → option (R → list R).

(** [pd.read_csv(StringIO(content), sep='\t')], or nothing when pandas
    rejects the text. *)
Variable read_csv : string → option (DataFrame R).

Definition detect_input_type (df : DataFrame R) (filepath : string) : InputType :=
  if negb (find filepath "acc" =? -1) then ACCELERATION
  else if negb (find filepath "gnss" =? -1) then GNSS
  else if negb (find filepath "gyr" =? -1) then GYROSCOPE
  else if negb (find filepath "unmodified-fullinertial" =? -1) then UNMOD_FULLINERTIAL
  else if negb (find filepath "unmodified-inertial" =? -1) then UNMOD_INERTIAL
  else if negb (find filepath "fullinertial" =? -1) then FULLINERTIAL
  else if negb (find filepath "inertial" =? -1) then INERTIAL
  else
    let column_count := shape1 df in
    if (column_count =? 4)%nat then ACCELERATION
    else if (column_count =? 10)%nat then
      if isnull_any df then UNMOD_INERTIAL else INERTIAL
    else if (column_count =? 14)%nat then
      if isnull_any df then UNMOD_FULLINERTIAL else FULLINERTIAL
    else UNRECOGNIZED.

Definition get_vectors (df : DataFrame R) (input_type : InputType) : Result (Vectors R) :=
  if bool_decide (input_type = INERTIAL ∨ input_type = UNMOD_INERTIAL) then
    accelerations ← cols_values df ["ax"; "ay"; "az"];
    angular_velocities ← cols_values df ["gx"; "gy"; "gz"];
    times ← col_values df "timestamp";
    gps_speed ← col_values df "speed";
    mret (Inertial times gps_speed accelerations angular_velocities)
  else if bool_decide (input_type = FULLINERTIAL) then
    coordinates ← cols_values df ["lon"; "lat"];
    altitudes ← col_values df "alt";
    accelerations ← cols_values df ["ax"; "ay"; "az"];
    angular_velocities ← cols_values df ["gx"; "gy"; "gz"];
    times ← col_values df "timestamp";
    gps_speed ← col_values df "speed";
    mret (FullInertial times coordinates altitudes gps_speed accelerations angular_velocities)
  else if bool_decide (input_type = UNMOD_FULLINERTIAL) then
    clean_gnss_data ← dropna df "lat";
    gnss_data_T ← cols_values clean_gnss_data ["lon"; "lat"; "alt"];
    gnss_data_timestamp ← col_values clean_gnss_data "timestamp";
    coord_func ← of_option (LibraryError "interp1d") (interp1d gnss_data_timestamp gnss_data_T);
    df ← dropna df "ax";
    accelerations ← cols_values df ["ax"; "ay"; "az"];
    angular_velocities ← cols_values df ["gx"; "gy"; "gz"];
    times ← col_values df "timestamp";
    pairs ← mapM (λ time,
               lon ← of_option IndexError (coord_func time !! 0%nat);
               lat ← of_option IndexError (coord_func time !! 1%nat);
               mret [lon; lat]) times;
    let coordinates := array_T 2 pairs in
    altitudes ← mapM (λ time, of_option IndexError (coord_func time !! 2%nat)) times;
    gps_speed ← col_values df "speed";
    mret (FullInertial times coordinates altitudes gps_speed accelerations angular_velocities)
  else mret PyNone.

(** [parse_input] from the frame on: everything after [pd.read_csv]. *)
Definition parse_frame (df : DataFrame R) (filepath : string)
    (accepted_types : list InputType) (slice_start slice_end : option Z)
    : Result (Vectors R) :=
  let input_type := detect_input_type df filepath in
  if bool_decide (input_type ≠ UNRECOGNIZED) then
    if not_none_and slice_start (λ s, s <? 0) then Raise slice_start_error
    else if not_none_and slice_end (λ e, Z.abs e >? Z.of_nat (shape0 df))
    then Raise slice_end_error
    else
      let df := slice_rows slice_start slice_end df in
      if bool_decide (input_type ∉ accepted_types) then Raise not_accepted_error
      else get_vectors df input_type
  else Raise unrecognized_error.

Definition parse_input (files : string → option string) (filepath : string)
    (accepted_types : list InputType) (slice_start slice_end : option Z)
    : Result (Vectors R) :=
  file_content ← of_option FileNotFoundError (files filepath);
  let file_content := strip hash_tab file_content in
  df ← of_option (LibraryError "read_csv") (read_csv file_content);
  parse_frame df filepath accepted_types slice_start slice_end.
End InputManager.

(** ** Numerical stages that [__init__.py] imports

    [clean_data_utils.py], [gnss_utils.py] and [integrate.py] are not part
    of the sources at hand.  The three stages whose contract the design
    document spells out are modelled from it below; the remaining ones are
    collected in the record [Stages] further down. *)

Section Numerics.
Context {R : Type} `{!Scalar R}.

Definition sum_list (l : list R) : R := foldl add zero l.

(** [a.mean()] of a one-dimensional array *)
Definition mean (l : list R) : R :=
  div (sum_list l) (of_Z (Z.of_nat (length l))).

(** [m *= c], element by element *)
Definition imul (m : Mat R) (c : R) : Mat R := map (map (λ x, mul x c)) m.

(** [np.linalg.norm(m, axis=0)]: one norm per column *)
Definition norm_axis0 (m : Mat R) : list R :=
  match m with
  | [] => []
  | row :: rows =>
      map sqrt (foldl (zip_with add) (map (λ x, mul x x) row)
                      (map (map (λ x, mul x x)) rows))
  end.

(** *** DisturbanceReducer *)

(** Modelled from the spec: [reduce_disturbance] of the missing
    [clean_data_utils.py], section 4.2.  Sample [i] of the output is the
    mean of the [W] input samples of the window that starts at [i]; the
    window is centred on input sample [i + W/2], so the output lacks the
    first [W/2] input positions and is [W] samples shorter than the
    input. *)
Definition moving_average (W : nat) (row : list R) : list R :=
  map (λ i, mean (take W (drop i row))) (seq 0 (length row - W)).

(** Modelled from the spec: the time vector that goes with
    [moving_average], trimmed the same way. *)
Definition trim_times (W : nat) (times : list R) : list R :=
  take (length times - W) (drop (W / 2) times).

(** Modelled from the spec: [reduce_disturbance(times, vectors,
    window_dimension)] returns the shortened times and the filtered
    series, each axis on its own. *)
Definition reduce_disturbance (times : list R) (vectors : Mat R) (W : nat)
    : list R * Mat R :=
  (trim_times W times, map (moving_average W) vectors).

(** *** StationaryDetector *)

(** The two literals of the detector. *)
Variable speed_threshold : R.
Variable min_duration : nat.

(** Modelled from the spec: grouping of consecutive marked samples into
    half-open index ranges, section 4.3.  [i] is the index of the head of
    [marks], [current] the start of the run being read, if any. *)
Fixpoint group_runs (marks : list bool) (i : nat) (current : option nat)
    : list (nat * nat) :=
  match marks with
  | [] =>
      match current with
      | Some s => [(s, i)]
      | None => []
      end
  | true :: marks' => group_runs marks' (S i) (Some (default i current))
  | false :: marks' =>
      match current with
      | Some s => (s, i) :: group_runs marks' (S i) None
      | None => group_runs marks' (S i) None
      end
  end.

(** Modelled from the spec: the minimum-duration test of section 4.3, in
    samples, the detector being handed the speeds alone. *)
Definition long_enough (interval : nat * nat) : bool :=
  (min_duration <=? interval.2 - interval.1)%nat.

(** Modelled from the spec: [get_stationary_times] of the missing
    [clean_data_utils.py], section 4.3: mark the samples below the
    threshold, group them, drop the short runs, and fail when nothing is
    left. *)
Definition get_stationary_times (speeds : list R) : Result (list (nat * nat)) :=
  let marks := map (λ v, ltb v speed_threshold) speeds in
  match List.filter long_enough (group_runs marks 0 None) with
  | [] => Raise StationaryNotFoundError
  | intervals => Ok intervals
  end.

(** *** AnchoredIntegrator *)

(** The quadrature rule: [quadrature times row i] is the integral of the
    sampled signal [row] between samples [i - 1] and [i].  The design
    document leaves the rule open (Simpson, trapezoid, rectangle). *)
Variable quadrature : list R → list R → nat → R.

(** Modelled from the spec: the ordering test of section 4.9. *)
Fixpoint strictly_increasing (times : list R) : bool :=
  match times with
  | [] => true
  | t :: times' =>
      match times' with
      | [] => true
      | t' :: _ => ltb t t' && strictly_increasing times'
      end
  end.

(** Modelled from the spec: the snap of section 4.9.  On an anchor index
    the running value is overwritten with the reference sample. *)
Definition snap (adjust : option (list R)) (adjust_frequency : option nat)
    (i : nat) (running : R) : Result R :=
  match adjust, adjust_frequency with
  | Some reference, Some f =>
      if (f =? 0)%nat then Raise ZeroDivisionError
      else if (i mod f =? 0)%nat then of_option IndexError (reference !! i)
      else Ok running
  | _, _ => Ok running
  end.

(** Modelled from the spec: the running sum from sample [i] on, [steps]
    samples long, continuing from the value [previous] of sample
    [i - 1]. *)
Fixpoint running_integral (times row : list R) (adjust : option (list R))
    (adjust_frequency : option nat) (i steps : nat) (previous : R)
    : Result (list R) :=
  match steps with
  | O => Ok []
  | S steps' =>
      current ← snap adjust adjust_frequency i (add previous (quadrature times row i));
      rest ← running_integral times row adjust adjust_frequency (S i) steps' current;
      mret (current :: rest)
  end.

(** Modelled from the spec: one axis of the integrator.  Sample 0 is the
    initial value, or the reference when sample 0 is an anchor. *)
Definition integrate_row (times row : list R) (initial : R)
    (adjust : option (list R)) (adjust_frequency : option nat) : Result (list R) :=
  match row with
  | [] => Ok []
  | _ :: _ =>
      first ← snap adjust adjust_frequency 0 initial;
      rest ← running_integral times row adjust adjust_frequency 1 (length row - 1) first;
      mret (first :: rest)
  end.

(** Modelled from the spec: the arguments of one axis, [r] its index. *)
Definition axis_initial (initial : option (list R)) (r : nat) : Result R :=
  match initial with
  | None => Ok zero
  | Some v => of_option IndexError (v !! r)
  end.

(** Modelled from the spec: the reference row of axis [r], if a reference
    was given. *)
Definition axis_adjust (adjust_data : option (Mat R)) (r : nat)
    : Result (option (list R)) :=
  match adjust_data with
  | None => Ok None
  | Some m => Some <$> of_option IndexError (m !! r)
  end.

(** Modelled from the spec: the axes one after the other, [r] the index of
    the first of [rows]. *)
Fixpoint integrate_axes (times : list R) (rows : list (list R)) (r : nat)
    (initial : option (list R)) (adjust_data : option (Mat R))
    (adjust_frequency : option nat) : Result (Mat R) :=
  match rows with
  | [] => Ok []
  | row :: rows' =>
      init ← axis_initial initial r;
      adjust ← axis_adjust adjust_data r;
      out ← integrate_row times row init adjust adjust_frequency;
      outs ← integrate_axes times rows' (S r) initial adjust_data adjust_frequency;
      mret (out :: outs)
  end.

(** Modelled from the spec: [simps_integrate] of the missing
    [integrate.py], section 4.9.  [initial] holds one value per axis. *)
Definition simps_integrate (times : list R) (vectors : Mat R)
    (initial : option (list R)) (adjust_data : option (Mat R))
    (adjust_frequency : option nat) : Result (Mat R) :=
  if strictly_increasing times
  then integrate_axes times vectors 0 initial adjust_data adjust_frequency
  else Raise OrderingError.
End Numerics.

(** The trapezoid rule, one admissible [quadrature]. *)
Definition trapezoid {R} `{!Scalar R} (times row : list R) (i : nat) : R :=
  match times !! (i - 1)%nat, times !! i, row !! (i - 1)%nat, row !! i with
  | Some t0, Some t1, Some v0, Some v1 =>
      div (mul (sub t1 t0) (add v0 v1)) (of_Z 2)
  | _, _, _, _ => zero
  end.

(** ** [__init__.py] *)

(** What the entry point calls without the sources at hand showing its
    body: pandas and scipy, the stages of [clean_data_utils.py],
    [gnss_utils.py] and [integrate.py] that are not modelled above, and the
    literals of the modelled ones.  A stage that works in place returns the
    arrays it has written. *)
Record Stages (R : Type) : Type := {
  read_csv : string → option (DataFrame R);
  interp1d : list R → Mat R → option (R → list R);
  converts_measurement_units :
    Mat R → Mat R → list R → Mat R → Result (Mat R * Mat R * list R * Mat R);
  get_positions : Mat R → list R → Result (Mat R * list R);
  get_velocities : list R → Mat R → Result (Mat R);
  speed_threshold : R;
  min_duration : nat;
  clear_gyro_drift : Mat R → list (nat * nat) → Result (Mat R);
  normalize_timestamp : list R → Result (list R);
  correct_z_orientation :
    Mat R → Mat R → list (nat * nat) → Result (Mat R * Mat R);
  correct_xy_orientation : Mat R → Mat R → Result (Mat R);
  rotate_accelerations : list R → Mat R → Mat R → Result (Mat R);
  align_to_world : Mat R → Mat R → list (nat * nat) → Result (Mat R);
  quadrature : list R → list R → nat → R;
  sign_inversion_is_necessary : Mat R → Result bool
}.
Arguments read_csv {R} s.
Arguments interp1d {R} s.
Arguments converts_measurement_units {R} s.
Arguments get_positions {R} s.
Arguments get_velocities {R} s.
Arguments speed_threshold {R} s.
Arguments min_duration {R} s.
Arguments clear_gyro_drift {R} s.
Arguments normalize_timestamp {R} s.
Arguments correct_z_orientation {R} s.
Arguments correct_xy_orientation {R} s.
Arguments rotate_accelerations {R} s.
Arguments align_to_world {R} s.
Arguments quadrature {R} s.
Arguments sign_inversion_is_necessary {R} s.

(** What a run can observe of its surroundings.  The entry point reads the
    file store and nothing else. *)
Record World : Type := {
  files : string → option string;
  wall_clock : Z;
  random_seed : Z
}.

(** The local variables of [get_positions_times] that are alive once the
    speeds have been computed (line 66). *)
Record Locals (R : Type) : Type := {
  l_times : list R;
  l_gps_speed : list R;
  l_accelerations : Mat R;
  l_angular_velocities : Mat R;
  l_gnss_positions : Mat R;
  l_real_velocities : Mat R;
  l_real_speeds : list R
}.
Arguments l_times {R} l.
Arguments l_gps_speed {R} l.
Arguments l_accelerations {R} l.
Arguments l_angular_velocities {R} l.
Arguments l_gnss_positions {R} l.
Arguments l_real_velocities {R} l.
Arguments l_real_speeds {R} l.

(** [round(w / 2)]: Python rounds a half to its even neighbour. *)
Definition round_half (w : nat) : Z :=
  let k := Z.of_nat (w / 2) in
  if Nat.even w then k else if Z.even k then k else k + 1.

Definition window_size : nat := 20.

Section Pipeline.
Context {R : Type} `{!Scalar R}.

Definition with_times (s : Locals R) (times : list R) : Locals R :=
  {| l_times := times; l_gps_speed := l_gps_speed s;
     l_accelerations := l_accelerations s;
     l_angular_velocities := l_angular_velocities s;
     l_gnss_positions := l_gnss_positions s;
     l_real_velocities := l_real_velocities s;
     l_real_speeds := l_real_speeds s |}.

Definition with_accelerations (s : Locals R) (accelerations : Mat R) : Locals R :=
  {| l_times := l_times s; l_gps_speed := l_gps_speed s;
     l_accelerations := accelerations;
     l_angular_velocities := l_angular_velocities s;
     l_gnss_positions := l_gnss_positions s;
     l_real_velocities := l_real_velocities s;
     l_real_speeds := l_real_speeds s |}.

Definition with_angular_velocities (s : Locals R) (angular_velocities : Mat R)
    : Locals R :=
  {| l_times := l_times s; l_gps_speed := l_gps_speed s;
     l_accelerations := l_accelerations s;
     l_angular_velocities := angular_velocities;
     l_gnss_positions := l_gnss_positions s;
     l_real_velocities := l_real_velocities s;
     l_real_speeds := l_real_speeds s |}.

(** Lines 57-61: both series through the reducer, then the GNSS positions
    cut to the same span. *)
Definition smooth (W : nat) (times : list R)
    (accelerations angular_velocities gnss_positions : Mat R)
    : list R * Mat R * Mat R * Mat R :=
  let '(times, accelerations) := reduce_disturbance times accelerations W in
  let '(_, angular_velocities) := reduce_disturbance times angular_velocities W in
  let gnss_positions :=
    map (py_slice (Some (round_half W)) (Some (- round_half W))) gnss_positions in
  (times, accelerations, angular_velocities, gnss_positions).

(** Line 80: [accelerations[2] -= accelerations[2, a:b].mean()] with
    [(a, b)] the first stationary interval. *)
Definition remove_g (s : Locals R) (stationary_times : list (nat * nat))
    : Result (Locals R) :=
  z ← of_option IndexError (l_accelerations s !! 2%nat);
  first ← of_option IndexError (stationary_times !! 0%nat);
  let g := mean (py_slice (Some (Z.of_nat first.1)) (Some (Z.of_nat first.2)) z) in
  mret (with_accelerations s (<[2%nat := map (λ x, sub x g) z]> (l_accelerations s))).

(** Lines 97-99 *)
Definition sign_correct (necessary : bool) (accelerations correct_velocities : Mat R)
    : Mat R * Mat R :=
  if necessary
  then (imul accelerations (of_Z (-1)), imul correct_velocities (of_Z (-1)))
  else (accelerations, correct_velocities).

Variable st : Stages R.

(** Lines 45-66 *)
Definition front (w : World) (path : string) : Result (Locals R) :=
  parsed ← parse_input (interp1d st) (read_csv st) (files w) path
              [UNMOD_FULLINERTIAL] None None;
  match parsed with
  | FullInertial times coordinates altitudes gps_speed accelerations angular_velocities =>
      '(accelerations, angular_velocities, gps_speed, coordinates) ←
        converts_measurement_units st accelerations angular_velocities gps_speed coordinates;
      '(gnss_positions, headings) ← get_positions st coordinates altitudes;
      let '(times, accelerations, angular_velocities, gnss_positions) :=
        smooth window_size times accelerations angular_velocities gnss_positions in
      real_velocities ← get_velocities st times gnss_positions;
      let real_speeds := norm_axis0 real_velocities in
      mret {| l_times := times; l_gps_speed := gps_speed;
              l_accelerations := accelerations;
              l_angular_velocities := angular_velocities;
              l_gnss_positions := gnss_positions;
              l_real_velocities := real_velocities;
              l_real_speeds := real_speeds |}
  | Inertial _ _ _ _ => Raise ValueError
  | PyNone => Raise TypeError
  end.

(** Lines 69-103 *)
Definition back (s : Locals R) : Result (Mat R * list R) :=
  stationary_times ←
    get_stationary_times (speed_threshold st) (min_duration st) (l_real_speeds s);
  angular_velocities ← clear_gyro_drift st (l_angular_velocities s) stationary_times;
  let s := with_angular_velocities s angular_velocities in
  times ← normalize_timestamp st (l_times s);
  let s := with_times s times in
  '(accelerations, angular_velocities) ←
    correct_z_orientation st (l_accelerations s) (l_angular_velocities s) stationary_times;
  let s := with_angular_velocities (with_accelerations s accelerations) angular_velocities in
  s ← remove_g s stationary_times;
  accelerations ← correct_xy_orientation st (l_accelerations s) (l_angular_velocities s);
  let s := with_accelerations s accelerations in
  accelerations ← rotate_accelerations st (l_times s) (l_accelerations s) (l_angular_velocities s);
  let s := with_accelerations s accelerations in
  accelerations ← align_to_world st (l_gnss_positions s) (l_accelerations s) stationary_times;
  let s := with_accelerations s accelerations in
  speed0 ← of_option IndexError (l_gps_speed s !! 0%nat);
  let initial_speed := [speed0; of_Z 0; of_Z 0] in
  correct_velocities ←
    simps_integrate (quadrature st) (l_times s) (l_accelerations s) (Some initial_speed)
      (Some (l_real_velocities s)) (Some 1%nat);
  necessary ← sign_inversion_is_necessary st correct_velocities;
  let '(accelerations, correct_velocities) :=
    sign_correct necessary (l_accelerations s) correct_velocities in
  let s := with_accelerations s accelerations in
  correct_position ←
    simps_integrate (quadrature st) (l_times s) correct_velocities None
      (Some (l_gnss_positions s)) (Some 1%nat);
  mret (correct_position, l_times s).

Definition get_positions_times (w : World) (path : string) : Result (Mat R * list R) :=
  s ← front w path;
  back s.

(** The shape contract of the stages of [Stages]: a stage that rewrites a
    series in place or rotates it sample by sample hands back a series of
    the shape it was given (section 3 of the design document: every series
    stays aligned to the shared time vector). *)
Record StagesAligned : Prop := {
  converts_shape : ∀ acc ang sp co acc' ang' sp' co',
    converts_measurement_units st acc ang sp co = Ok (acc', ang', sp', co') →
    ∀ r c, shape acc r c → shape acc' r c;
  normalize_length : ∀ t t',
    normalize_timestamp st t = Ok t' → length t' = length t;
  correct_z_shape : ∀ acc ang sts acc' ang',
    correct_z_orientation st acc ang sts = Ok (acc', ang') →
    ∀ r c, shape acc r c → shape acc' r c;
  correct_xy_shape : ∀ acc ang acc',
    correct_xy_orientation st acc ang = Ok acc' →
    ∀ r c, shape acc r c → shape acc' r c;
  rotate_shape : ∀ t acc ang acc',
    rotate_accelerations st t acc ang = Ok acc' →
    ∀ r c, shape acc r c → shape acc' r c;
  align_shape : ∀ pos acc sts acc',
    align_to_world st pos acc sts = Ok acc' →
    ∀ r c, shape acc r c → shape acc' r c
}.
End Pipeline.

(** A run of marked samples that the detector has to report: a non-empty
    index range [a, b) of the series, at least [min_duration] long, every
    sample of which is below the threshold. *)
Definition qualifying_run {R} `{!Scalar R} (threshold : R) (duration : nat)
    (speeds : list R) (a b : nat) : Prop :=
  (a < b)%nat ∧ (b ≤ length speeds)%nat ∧ (duration ≤ b - a)%nat ∧
  ∀ i v, (a ≤ i < b)%nat → speeds !! i = Some v → ltb v threshold = true.

(** ** Vocabulary of the statements *)

(** The exceptions of the library layer: the ones a column access, an index
    or a library call raise. *)
Definition library_error (e : Error) : Prop :=
  match e with
  | KeyError _ | IndexError | LibraryError _ => True
  | _ => False
  end.

(** The two tests of lines 168 and 170 of [input_manager.py]. *)
Definition start_rejected (slice_start : option Z) : Prop :=
  ∃ s, slice_start = Some s ∧ s < 0.
Definition end_rejected {R} (df : DataFrame R) (slice_end : option Z) : Prop :=
  ∃ e, slice_end = Some e ∧ Z.abs e > Z.of_nat (length (df_rows df)).

(** The reference covers the samples [0 .. n - 1] and the frequency is
    usable. *)
Definition covered {R} (adjust : option (list R)) (adjust_frequency : option nat)
    (n : nat) : Prop :=
  match adjust, adjust_frequency with
  | Some reference, Some f => (0 < f)%nat ∧ (n ≤ length reference)%nat
  | _, _ => True
  end.

(** The arguments the axes need: an initial value and a reference row for
    each of the rows [r0 .. r0 + n - 1], the reference rows [c] long. *)
Definition axes_supplied {R} (initial : option (list R)) (adjust_data : option (Mat R))
    (f : option nat) (r0 n c : nat) : Prop :=
  (∀ v, initial = Some v → (r0 + n ≤ length v)%nat) ∧
  (∀ m, adjust_data = Some m →
     (r0 + n ≤ length m)%nat ∧ Forall (λ row, (c ≤ length row)%nat) m ∧
     ∀ f', f = Some f' → (0 < f')%nat).

(** All series of a result of [get_vectors] have [n] samples.  The
    coordinates of a 6-tuple are 2-by-[n], or the empty one-dimensional
    array when there is no sample. *)
Definition vectors_aligned {R} (v : Vectors R) (n : nat) : Prop :=
  match v with
  | Inertial times gps_speed accelerations angular_velocities =>
      length times = n ∧ length gps_speed = n ∧
      shape accelerations 3 n ∧ shape angular_velocities 3 n
  | FullInertial times coordinates altitudes gps_speed accelerations
      angular_velocities =>
      length times = n ∧
      (shape coordinates 2 n ∨ n = 0%nat ∧ coordinates = []) ∧
      length altitudes = n ∧
      length gps_speed = n ∧
      shape accelerations 3 n ∧ shape angular_velocities 3 n
  | PyNone => True
  end.

(** The types for which [get_vectors] hands back a value of the form of
    [v]. *)
Definition types_of {R} (v : Vectors R) : list InputType :=
  match v with
  | Inertial _ _ _ _ => [INERTIAL; UNMOD_INERTIAL]
  | FullInertial _ _ _ _ _ _ => [FULLINERTIAL; UNMOD_FULLINERTIAL]
  | PyNone => [ACCELERATION; GNSS; GYROSCOPE; UNRECOGNIZED]
  end.

(** The columns the two inertial branches of [get_vectors] read, in the
    order in which they read them. *)
Definition inertial_columns : list string :=
  ["ax"; "ay"; "az"; "gx"; "gy"; "gz"; "timestamp"; "speed"].
Definition fullinertial_columns : list string :=
  ["lon"; "lat"; "alt"; "ax"; "ay"; "az"; "gx"; "gy"; "gz"; "timestamp"; "speed"].

Definition has_columns {R} (df : DataFrame R) (names : list string) : Prop :=
  Forall (λ name, name ∈ df_columns df) names.

(** The cell of [row] under the column [name]. *)
Definition field {R} `{!Scalar R} (df : DataFrame R) (name : string)
    (row : list R) : option R :=
  i ← column_index name (df_columns df); Some (cell i row).

(** The first and the one-past-last row of [df[slice_start:slice_end]] for
    bounds that have passed the two tests of [parse_input]. *)
Definition start_index (slice_start : option Z) : nat :=
  match slice_start with
  | None => 0
  | Some s => Z.to_nat s
  end.
Definition end_index (rows : nat) (slice_end : option Z) : nat :=
  match slice_end with
  | None => rows
  | Some e => if e <? 0 then (rows - Z.to_nat (- e))%nat else Z.to_nat e
  end.


(** The characters line 157 of [input_manager.py] strips. *)
Definition margin (c : ascii) : Prop := c = "#"%char ∨ c = tab.

(** [sub] occurs somewhere in [s]. *)
Definition occurs (sub s : string) : Prop :=
  ∃ before after : string, s = (before ++ sub ++ after)%string.

(** The file name says what the file holds: one of the substrings
    [detect_input_type] looks for occurs in it.  The three longer names it
    looks for all contain ["inertial"]. *)
Definition name_hint (filepath : string) : Prop :=
  occurs "acc" filepath ∨ occurs "gnss" filepath ∨ occurs "gyr" filepath
  ∨ occurs "inertial" filepath.

(** ** A recording to run the definitions on *)

Module Example.
Definition columns : list string :=
  ["timestamp"; "lon"; "lat"; "alt"; "speed"; "ax"; "ay"; "az";
   "gx"; "gy"; "gz"; "heading"; "hdop"; "sats"].

Definition row (i : nat) : list Z :=
  let t := Z.of_nat i in [t; t; 2 * t; 5; 0; 1; 2; 10; 0; 0; 0; 0; 0; 0].

(** 24 samples, one per second. *)
Definition recording : DataFrame Z :=
  {| df_columns := columns; df_rows := map row (seq 0 24) |}.

(** Two samples with the four columns of an accelerometer log. *)
Definition short_log : DataFrame Z :=
  {| df_columns := ["timestamp"; "ax"; "ay"; "az"];
     df_rows := [[0; 1; 2; 3]; [1; 4; 5; 6]] |}.

Definition path : string := "logs/unmodified-fullinertial.tsv".
Definition acc_path : string := "logs/acc.tsv".

(** Two samples of an inertial log. *)
Definition inertial_log : DataFrame Z :=
  {| df_columns := ["timestamp"; "speed"; "ax"; "ay"; "az"; "gx"; "gy"; "gz"];
     df_rows := [[0; 5; 1; 2; 3; 4; 5; 6]; [1; 6; 7; 8; 9; 10; 11; 12]] |}.
Definition inertial_path : string := "logs/inertial.tsv".
Definition gnss_path : string := "logs/gnss.tsv".
Definition inertial_csv (content : string) : option (DataFrame Z) :=
  Some inertial_log.
Definition full_csv (content : string) : option (DataFrame Z) := Some recording.

(** The header of the recording without a single row. *)
Definition empty_log : DataFrame Z := {| df_columns := columns; df_rows := [] |}.

(** A file store and a parser that hold the accelerometer log only. *)
Definition any_file (p : string) : option string := Some "#	t".
Definition short_csv (content : string) : option (DataFrame Z) := Some short_log.

Definition fit (x : list Z) (y : Mat Z) : option (Z → list Z) :=
  Some (λ t, [t; 2 * t; 5]).

Definition world : World :=
  {| files := λ p, if String.eqb p path then Some "#	timestamp" else None;
     wall_clock := 0;
     random_seed := 0 |}.

(** The same file in another place, at another time. *)
Definition later_world : World :=
  {| files := λ p,
       if String.eqb p path then Some "#	timestamp"
       else if String.eqb p acc_path then Some "#	t" else None;
     wall_clock := 86400;
     random_seed := 17 |}.

(** Stages that leave the series as they are; the vehicle of
    [resting] does not move, that of [moving] never stops. *)
Definition stages (velocity : Z) : Stages Z :=
  {| read_csv := λ _, Some recording;
     interp1d := fit;
     converts_measurement_units := λ acc ang sp co, Ok (acc, ang, sp, co);
     get_positions := λ co alt, Ok ((co ++ [alt])%list, []);
     get_velocities := λ t pos, Ok (map (map (λ _, velocity)) pos);
     speed_threshold := 1;
     min_duration := 2;
     clear_gyro_drift := λ ang _, Ok ang;
     normalize_timestamp := λ t, Ok t;
     correct_z_orientation := λ acc ang _, Ok (acc, ang);
     correct_xy_orientation := λ acc _, Ok acc;
     rotate_accelerations := λ _ acc _, Ok acc;
     align_to_world := λ _ acc _, Ok acc;
     quadrature := trapezoid;
     sign_inversion_is_necessary := λ _, Ok false |}.

Definition resting : Stages Z := stages 0.
Definition moving : Stages Z := stages 5.

(** The variables of the entry point before line 80, on three samples. *)
Definition locals : Locals Z :=
  {| l_times := [0; 1; 2];
     l_gps_speed := [0; 0; 0];
     l_accelerations := [[1; 1; 1]; [2; 2; 2]; [10; 11; 12]];
     l_angular_velocities := [[0; 0; 0]; [0; 0; 0]; [0; 0; 0]];
     l_gnss_positions := [[0; 1; 2]; [0; 2; 4]; [5; 5; 5]];
     l_real_velocities := [[0; 0; 0]; [0; 0; 0]; [0; 0; 0]];
     l_real_speeds := [0; 0; 0] |}.

(** A vehicle at rest on the samples 10 .. 49 of sixty. *)
Definition stop_and_go : list Z :=
  (replicate 10 5 ++ replicate 40 0 ++ replicate 10 5)%list.
End Example.

(** * Properties *)

(** ** The error monad *)

Lemma bind_Ok {A B} (m : Result A) (f : A → Result B) (b : B) :
  m ≫= f = Ok b ↔ ∃ a, m = Ok a ∧ f a = Ok b.
Proof.
  destruct m as [a|e]; unfold mbind, Result_bind; split.
  - intros Hf. eauto.
  - intros (a' & Ha & Hf). congruence.
  - discriminate.
  - intros (a' & Ha & _). discriminate.
Qed.

Lemma bind_Raise {A B} (m : Result A) (f : A → Result B) (e : Error) :
  m ≫= f = Raise e ↔ m = Raise e ∨ ∃ a, m = Ok a ∧ f a = Raise e.
Proof.
  destruct m as [a|e']; unfold mbind, Result_bind; split.
  - intros Hf. eauto.
  - intros [Hm | (a' & Ha & Hf)]; congruence.
  - intros Hf. left. congruence.
  - intros [Hm | (a' & Ha & _)]; congruence.
Qed.

Lemma of_option_Ok {A} (e : Error) (o : option A) (a : A) :
  of_option e o = Ok a ↔ o = Some a.
Proof. destruct o; simpl; split; congruence. Qed.

Lemma of_option_Raise {A} (e e' : Error) (o : option A) :
  of_option e o = Raise e' → e' = e.
Proof. destruct o; simpl; congruence. Qed.

(** Unfolds one bind of a hypothesis that says the computation returned. *)
Tactic Notation "bind_inv" hyp(H) :=
  let a := fresh "a" in
  let Ha := fresh "H" a in
  apply bind_Ok in H as (a & Ha & H).

Tactic Notation "bind_inv" hyp(H) "as" simple_intropattern(a) ident(Ha) :=
  apply bind_Ok in H as (a & Ha & H).

(** ** The input adapter *)

Section Adapter.
Context {R : Type} `{!Scalar R}.
Variable interp1d : list R → Mat R → option (R → list R).
Variable read_csv : string → option (DataFrame R).

Lemma library_error_not_slice e : library_error e → ¬ is_slice_error e.
Proof. intros He [-> | ->]; exact He. Qed.

Lemma library_error_not_format e : library_error e → ¬ is_format_error e.
Proof. intros He [-> | ->]; exact He. Qed.

Lemma col_values_Raise (df : DataFrame R) name e :
  col_values df name = Raise e → library_error e.
Proof.
  unfold col_values. intros [H | (i & _ & H)]%bind_Raise.
  - apply of_option_Raise in H as ->. exact I.
  - discriminate.
Qed.

Lemma mapM_Raise {A B} (f : A → Result B) (P : Error → Prop) (l : list A) e :
  (∀ x e', f x = Raise e' → P e') → mapM f l = Raise e → P e.
Proof.
  intros Hf. revert e. induction l as [|x l IH]; intros e; simpl; [discriminate|].
  intros [H | (y & _ & H)]%bind_Raise; [by eapply Hf|].
  apply bind_Raise in H as [H | (ys & _ & H)]; [by apply IH | discriminate].
Qed.

Lemma cols_values_Raise (df : DataFrame R) names e :
  cols_values df names = Raise e → library_error e.
Proof. apply mapM_Raise. intros x e'. apply col_values_Raise. Qed.

Lemma dropna_Raise (df : DataFrame R) name e :
  dropna df name = Raise e → library_error e.
Proof.
  unfold dropna. intros [H | (i & _ & H)]%bind_Raise.
  - apply of_option_Raise in H as ->. exact I.
  - discriminate.
Qed.

Lemma of_option_library {A} (o : option A) e e' :
  library_error e → of_option e o = Raise e' → library_error e'.
Proof. intros He ->%of_option_Raise. exact He. Qed.

Lemma coordinate_pair_Raise (coord_func : R → list R) time e :
  (lon ← of_option IndexError (coord_func time !! 0%nat);
   lat ← of_option IndexError (coord_func time !! 1%nat);
   mret [lon; lat]) = Raise e → library_error e.
Proof.
  intros [H | (lon & _ & [H | (lat & _ & H)]%bind_Raise)]%bind_Raise;
    [by eapply of_option_library, H .. | discriminate].
Qed.

(** [get_vectors] raises nothing but library errors. *)
Lemma get_vectors_Raise (df : DataFrame R) t e :
  get_vectors interp1d df t = Raise e → library_error e.
Proof.
  unfold get_vectors.
  repeat case_bool_decide; intros Hgv;
    repeat (apply bind_Raise in Hgv; destruct Hgv as [Hgv | Hgv];
            [ first [ by eapply cols_values_Raise
                    | by eapply col_values_Raise
                    | by eapply dropna_Raise
                    | by eapply of_option_library, Hgv
                    | by eapply mapM_Raise, Hgv; intros ??; apply coordinate_pair_Raise
                    | by eapply mapM_Raise, Hgv; intros ??; apply of_option_library ]
            | destruct Hgv as (? & _ & Hgv) ]);
    discriminate.
Qed.

(** What [parse_input] does once the file has been read and parsed. *)
Lemma parse_input_frame files path content df accepted slice_start slice_end :
  files path = Some content →
  read_csv (strip hash_tab content) = Some df →
  parse_input interp1d read_csv files path accepted slice_start slice_end
  = parse_frame interp1d df path accepted slice_start slice_end.
Proof. intros Hfile Hcsv. unfold parse_input. rewrite Hfile. simpl. by rewrite Hcsv. Qed.

Lemma start_rejected_spec slice_start :
  not_none_and slice_start (λ s, s <? 0) = true ↔ start_rejected slice_start.
Proof.
  unfold start_rejected. destruct slice_start as [s|]; simpl.
  - rewrite Z.ltb_lt. split; [eauto | by intros (? & [= <-] & ?)].
  - split; [done | by intros (? & [=] & _)].
Qed.

Lemma end_rejected_spec (df : DataFrame R) slice_end :
  not_none_and slice_end (λ e, Z.abs e >? Z.of_nat (shape0 df)) = true
  ↔ end_rejected df slice_end.
Proof.
  unfold shape0; unfold end_rejected. destruct slice_end as [s|]; simpl.
  - rewrite Z.gtb_gt. split; [eauto | by intros (? & [= <-] & ?)].
  - split; [done | by intros (? & [=] & _)].
Qed.

(** The outcome of [parse_frame], case by case in the order of the code. *)
Lemma parse_frame_cases (df : DataFrame R) path accepted slice_start slice_end :
  let t := detect_input_type df path in
  let r := parse_frame interp1d df path accepted slice_start slice_end in
  (t = UNRECOGNIZED ∧ r = Raise unrecognized_error) ∨
  (t ≠ UNRECOGNIZED ∧ start_rejected slice_start ∧ r = Raise slice_start_error) ∨
  (t ≠ UNRECOGNIZED ∧ ¬ start_rejected slice_start ∧ end_rejected df slice_end ∧
     r = Raise slice_end_error) ∨
  (t ≠ UNRECOGNIZED ∧ ¬ start_rejected slice_start ∧ ¬ end_rejected df slice_end ∧
     (t ∉ accepted) ∧ r = Raise not_accepted_error) ∨
  (t ≠ UNRECOGNIZED ∧ ¬ start_rejected slice_start ∧ ¬ end_rejected df slice_end ∧
     (t ∈ accepted) ∧
     r = get_vectors interp1d (slice_rows slice_start slice_end df) t).
Proof.
  intros t r. subst r. unfold parse_frame. fold t.
  case_bool_decide as Ht; [|left; split; [by destruct (decide (t = UNRECOGNIZED)) | done]].
  right.
  destruct (not_none_and slice_start _) eqn:Hs.
  { left. by rewrite <-start_rejected_spec. }
  right.
  assert (¬ start_rejected slice_start) as Hs'.
  { rewrite <-start_rejected_spec. congruence. }
  destruct (not_none_and slice_end _) eqn:He.
  { left. by rewrite <-end_rejected_spec. }
  right.
  assert (¬ end_rejected df slice_end) as He'.
  { rewrite <-end_rejected_spec. congruence. }
  case_bool_decide as Ha; [left | right]; repeat split; try done.
Qed.

Section Parsed.
Variables (files : string → option string) (path content : string).
Variable df : DataFrame R.
Hypothesis Hfile : files path = Some content.
Hypothesis Hcsv : read_csv (strip hash_tab content) = Some df.

(** C4 (amended).  For a recording of a recognized type, [parse_input]
    raises a slice error exactly when [slice_start] is given and
    negative, or [slice_end] is given and larger in absolute value than
    the number of rows.  Nothing else about the bounds is looked at: a
    [slice_start] beyond the last row is let through. *)
Theorem parse_input_slice_error accepted slice_start slice_end :
  detect_input_type df path ≠ UNRECOGNIZED →
  (∃ e, parse_input interp1d read_csv files path accepted slice_start slice_end
        = Raise e ∧ is_slice_error e)
  ↔ start_rejected slice_start ∨ end_rejected df slice_end.
Proof.
  intros Ht. rewrite (parse_input_frame _ _ _ _ _ _ _ Hfile Hcsv).
  destruct (parse_frame_cases df path accepted slice_start slice_end)
    as [[Hu _] | [(_ & Hs & ->) | [(_ & Hs & He & ->) | [(_ & Hs & He & _ & ->)
       | (_ & Hs & He & _ & ->)]]]].
  - done.
  - split; [by left|]. intros _. exists slice_start_error. split; [done | by left].
  - split; [by right|]. intros _. exists slice_end_error. split; [done | by right].
  - split; [|tauto]. by intros (e & [= <-] & [[=] | [=]]).
  - split; [|tauto]. intros (e & Hgv & Hslice).
    by apply get_vectors_Raise, library_error_not_slice in Hgv.
Qed.

(** C5 (amended).  [parse_input] raises a format error exactly when the
    detected type is UNRECOGNIZED, or the type is recognized, the slice
    bounds pass their two tests and the type is missing from the
    accepted ones.  The bounds of a recognized recording are tested
    before its type is looked up among the accepted ones. *)
Theorem parse_input_format_error accepted slice_start slice_end :
  (∃ e, parse_input interp1d read_csv files path accepted slice_start slice_end
        = Raise e ∧ is_format_error e)
  ↔ detect_input_type df path = UNRECOGNIZED
    ∨ ((detect_input_type df path ∉ accepted)
       ∧ ¬ start_rejected slice_start ∧ ¬ end_rejected df slice_end).
Proof.
  rewrite (parse_input_frame _ _ _ _ _ _ _ Hfile Hcsv).
  destruct (parse_frame_cases df path accepted slice_start slice_end)
    as [[Hu ->] | [(Ht & Hs & ->) | [(Ht & Hs & He & ->) | [(Ht & Hs & He & Ha & ->)
       | (Ht & Hs & He & Ha & ->)]]]].
  - split; [by left|]. intros _. exists unrecognized_error. split; [done | by right].
  - split; [|tauto]. by intros (e & [= <-] & [[=] | [=]]).
  - split; [|tauto]. by intros (e & [= <-] & [[=] | [=]]).
  - split; [by right|]. intros _. exists not_accepted_error. split; [done | by left].
  - split; [|tauto]. intros (e & Hgv & Hformat).
    by apply get_vectors_Raise, library_error_not_format in Hgv.
Qed.

(** C10.  A recording detected as ACCELERATION, GNSS or GYROSCOPE, of an
    accepted type and with bounds that pass the two tests, makes
    [parse_input] return [None]: no exception, no tuple. *)
Theorem parse_input_returns_None accepted slice_start slice_end :
  detect_input_type df path ∈ [ACCELERATION; GNSS; GYROSCOPE] →
  detect_input_type df path ∈ accepted →
  ¬ start_rejected slice_start →
  ¬ end_rejected df slice_end →
  parse_input interp1d read_csv files path accepted slice_start slice_end
  = Ok PyNone.
Proof.
  intros Ht Ha Hs He. rewrite (parse_input_frame _ _ _ _ _ _ _ Hfile Hcsv).
  destruct (parse_frame_cases df path accepted slice_start slice_end)
    as [[Hu _] | [(_ & Hs' & _) | [(_ & _ & He' & _) | [(_ & _ & _ & Ha' & _)
       | (_ & _ & _ & _ & ->)]]]]; try done.
  - rewrite Hu, !elem_of_cons, elem_of_nil in Ht. by intuition.
  - rewrite !elem_of_cons, elem_of_nil in Ht. unfold get_vectors.
    by destruct Ht as [-> | [-> | [-> | []]]].
Qed.
End Parsed.
End Adapter.

(** Witnesses and counterexamples for the adapter. *)

(** C4 as the design document puts it: a start bound beyond the last row
    should be refused.  On a two-row log, [slice_start = 5] is let through and
    [parse_input] returns. *)
Lemma slice_start_beyond_rows_accepted :
  let r := parse_input Example.fit Example.short_csv Example.any_file
             Example.acc_path all_input_types (Some 5) None in
  Z.of_nat (shape0 Example.short_log) < 5 ∧ r = Ok PyNone ∧
  ¬ ∃ e, r = Raise e ∧ is_slice_error e.
Proof.
  split; [done|]. split; [reflexivity|].
  intros (e & He & _). vm_compute in He. discriminate.
Qed.

Lemma parse_input_slice_error_witness :
  (∃ e, parse_input Example.fit Example.short_csv Example.any_file
          Example.acc_path all_input_types None (Some 3) = Raise e
        ∧ is_slice_error e)
  ↔ start_rejected None ∨ end_rejected Example.short_log (Some 3).
Proof.
  apply (parse_input_slice_error Example.fit Example.short_csv Example.any_file
           Example.acc_path "#	t" Example.short_log).
  - reflexivity.
  - reflexivity.
  - vm_compute. discriminate.
Defined.

(** C5 as the design document puts it: a type outside the accepted ones
    should give a format error.  An accelerometer log offered to a caller that accepts
    full inertial logs only, with a negative start bound, gives the slice
    error instead. *)
Lemma unaccepted_type_slice_error :
  let accepted := [UNMOD_FULLINERTIAL] in
  let r := parse_input Example.fit Example.short_csv Example.any_file
             Example.acc_path accepted (Some (-1)) None in
  detect_input_type Example.short_log Example.acc_path = ACCELERATION ∧
  (ACCELERATION ∉ accepted) ∧
  r = Raise slice_start_error ∧
  ¬ ∃ e, r = Raise e ∧ is_format_error e.
Proof.
  split; [reflexivity|]. split.
  { rewrite list_elem_of_singleton. discriminate. }
  split; [reflexivity|].
  intros (e & He & [-> | ->]); vm_compute in He; discriminate.
Qed.

Lemma parse_input_format_error_witness :
  (∃ e, parse_input Example.fit Example.short_csv Example.any_file
          Example.acc_path [UNMOD_FULLINERTIAL] None None = Raise e
        ∧ is_format_error e)
  ↔ detect_input_type Example.short_log Example.acc_path = UNRECOGNIZED
    ∨ ((detect_input_type Example.short_log Example.acc_path ∉ [UNMOD_FULLINERTIAL])
       ∧ ¬ start_rejected None ∧ ¬ end_rejected Example.short_log None).
Proof.
  apply (parse_input_format_error Example.fit Example.short_csv Example.any_file
           Example.acc_path "#	t" Example.short_log).
  - reflexivity.
  - reflexivity.
Defined.

Lemma parse_input_returns_None_witness :
  parse_input Example.fit Example.short_csv Example.any_file
    Example.acc_path all_input_types (Some 0) (Some (-1)) = Ok PyNone.
Proof.
  apply (parse_input_returns_None Example.fit Example.short_csv Example.any_file
           Example.acc_path "#	t" Example.short_log).
  - reflexivity.
  - reflexivity.
  - apply elem_of_cons. left. reflexivity.
  - apply elem_of_cons. left. reflexivity.
  - intros (s & [= <-] & Hs). lia.
  - intros (e & [= <-] & He). vm_compute in He. discriminate.
Defined.

(** ** The disturbance reducer *)

Section Reducer.
Context {R : Type} `{!Scalar R}.

Lemma moving_average_length W (row : list R) :
  length (moving_average W row) = (length row - W)%nat.
Proof. unfold moving_average. by rewrite length_map, length_seq. Qed.

Lemma moving_average_lookup W (row : list R) i :
  (i < length row - W)%nat →
  moving_average W row !! i = Some (mean (take W (drop i row))).
Proof.
  intros Hi. unfold moving_average.
  change (map ?f ?l) with (f <$> l).
  by rewrite list_lookup_fmap, lookup_seq_lt.
Qed.

Lemma trim_times_length W (times : list R) :
  length (trim_times W times) = (length times - W)%nat.
Proof.
  unfold trim_times. rewrite length_take, length_drop.
  pose proof (Nat.Div0.div_le_upper_bound W 2 W). lia.
Qed.

(** The samples the trimming removes: [W / 2] in front, the rest of the
    [W] behind. *)
Lemma trim_times_split W (times : list R) :
  (W ≤ length times)%nat →
  times = (take (W / 2) times ++ trim_times W times
           ++ drop (W / 2 + (length times - W)) times)%list.
Proof.
  intros HW. unfold trim_times.
  rewrite <-(take_drop (W / 2) times) at 1. f_equal.
  rewrite <-(take_drop (length times - W) (drop (W / 2) times)) at 1. f_equal.
  rewrite drop_drop. done.
Qed.

Lemma reduce_disturbance_columns W N (times : list R) (vectors : Mat R) :
  Forall (λ row, length row = N) vectors →
  Forall (λ row, length row = (N - W)%nat) (reduce_disturbance times vectors W).2.
Proof.
  intros Hv. simpl. change (map ?f ?l) with (f <$> l).
  apply Forall_fmap. eapply Forall_impl; [exact Hv|].
  intros row <-. simpl. apply moving_average_length.
Qed.

Lemma py_slice_trim_length {A} (k : nat) (l : list A) :
  (0 < k)%nat →
  length (py_slice (Some (Z.of_nat k)) (Some (- Z.of_nat k)) l)
  = (length l - 2 * k)%nat.
Proof.
  intros Hk. unfold py_slice, slice_bound.
  destruct (Z.ltb_spec (Z.of_nat k) 0) as [|_]; [lia|].
  destruct (Z.ltb_spec (- Z.of_nat k) 0) as [_|]; [|lia].
  rewrite length_drop, length_take. lia.
Qed.

Lemma round_half_even W : Nat.even W = true → round_half W = Z.of_nat (W / 2).
Proof. intros HW. unfold round_half. by rewrite HW. Qed.

Lemma even_halves W : Nat.even W = true → (2 * (W / 2) = W)%nat.
Proof.
  intros HW. apply Nat.even_spec in HW as [k ->].
  rewrite (Nat.mul_comm 2 k), Nat.div_mul by lia. lia.
Qed.

(** Lines 57-61 for an even, positive window: the four series come out
    with the same number of samples. *)
Lemma smooth_lengths W N (times : list R) (acc ang gnss : Mat R) :
  Nat.even W = true → (0 < W)%nat →
  length times = N →
  Forall (λ row, length row = N) acc →
  Forall (λ row, length row = N) ang →
  Forall (λ row, length row = N) gnss →
  let '(times', acc', ang', gnss') := smooth W times acc ang gnss in
  length times' = (N - W)%nat ∧
  Forall (λ row, length row = (N - W)%nat) acc' ∧
  Forall (λ row, length row = (N - W)%nat) ang' ∧
  Forall (λ row, length row = (N - W)%nat) gnss'.
Proof.
  intros HW Hpos Ht Hacc Hang Hgnss. unfold smooth. simpl.
  split; [by rewrite trim_times_length, Ht|].
  split; [by apply (reduce_disturbance_columns W N times)|].
  split; [by apply (reduce_disturbance_columns W N times)|].
  change (map ?f ?l) with (f <$> l).
  apply Forall_fmap. eapply Forall_impl; [exact Hgnss|].
  intros row <-. simpl. rewrite round_half_even by done.
  pose proof (even_halves W HW).
  rewrite py_slice_trim_length; lia.
Qed.

(** C8.  For an input of [N] samples and a window [W ≤ N], the reducer
    returns a series of [N - W] samples per axis, sample [i] being the mean
    of the window that starts at input sample [i], and a time vector of
    [N - W] samples that is the input time vector without its first [W / 2]
    and its last [W - W / 2] samples ([W / 2] at each end when [W] is
    even).  In the entry point, whose window is 20, the times, the
    accelerations, the angular velocities and the GNSS positions cut by
    [round(20 / 2)] at each end all come out with [N - 20] samples. *)
Theorem reduce_disturbance_trims W N (times : list R) (vectors : Mat R) :
  length times = N →
  Forall (λ row, length row = N) vectors →
  ((W ≤ N)%nat →
   let '(times', out) := reduce_disturbance times vectors W in
   length out = length vectors ∧
   Forall (λ row, length row = (N - W)%nat) out ∧
   (∀ k row i, vectors !! k = Some row → (i < N - W)%nat →
      entry out k i = Some (mean (take W (drop i row)))) ∧
   length times' = (N - W)%nat ∧
   ∃ front_cut back_cut,
     times = (front_cut ++ times' ++ back_cut)%list ∧
     length front_cut = (W / 2)%nat ∧
     length back_cut = (W - W / 2)%nat ∧
     (Nat.even W = true → length back_cut = (W / 2)%nat))
  ∧
  (∀ ang gnss : Mat R,
     Forall (λ row, length row = N) ang →
     Forall (λ row, length row = N) gnss →
     let '(times', acc', ang', gnss') := smooth window_size times vectors ang gnss in
     length times' = (N - 20)%nat ∧
     Forall (λ row, length row = (N - 20)%nat) acc' ∧
     Forall (λ row, length row = (N - 20)%nat) ang' ∧
     Forall (λ row, length row = (N - 20)%nat) gnss').
Proof.
  intros Ht Hv. split.
  - intros HW. unfold reduce_disturbance.
    split; [by rewrite length_map|].
    split; [by apply (reduce_disturbance_columns W N times)|].
    split.
    { intros k row i Hk Hi. unfold entry.
      change (map ?f ?l) with (f <$> l). rewrite list_lookup_fmap, Hk. simpl.
      apply moving_average_lookup.
      rewrite Forall_forall in Hv. rewrite (Hv row); [done|].
      by eapply list_elem_of_lookup_2. }
    split; [by rewrite trim_times_length, Ht|].
    exists (take (W / 2) times), (drop (W / 2 + (length times - W)) times).
    pose proof (Nat.Div0.div_le_upper_bound W 2 W).
    split; [apply trim_times_split; lia|].
    split; [rewrite length_take; lia|].
    split; [rewrite length_drop; lia|].
    intros Heven. pose proof (even_halves W Heven). rewrite length_drop. lia.
  - intros ang gnss Hang Hgnss.
    assert (0 < window_size)%nat as Hpos by (unfold window_size; lia).
    exact (smooth_lengths window_size N times vectors ang gnss
             eq_refl Hpos Ht Hv Hang Hgnss).
Qed.
End Reducer.

Lemma reduce_disturbance_trims_witness :
  let times := [0; 1; 2; 3; 4; 5; 6] in
  let vectors := [[0; 10; 20; 30; 40; 50; 60]] in
  length (reduce_disturbance times vectors 4).1 = 3%nat ∧
  Forall (λ row, length row = 3%nat) (reduce_disturbance times vectors 4).2.
Proof.
  intros times vectors.
  assert (length times = 7%nat) as Ht by reflexivity.
  assert (Forall (λ row, length row = 7%nat) vectors) as Hv
    by (repeat constructor).
  destruct (reduce_disturbance_trims 4 7 times vectors Ht Hv) as [Hreducer _].
  assert (4 ≤ 7)%nat as HW by lia.
  specialize (Hreducer HW).
  destruct (reduce_disturbance times vectors 4) as [times' out].
  destruct Hreducer as (_ & Hout & _ & Htimes & _).
  split; [exact Htimes | exact Hout].
Defined.

(** ** The anchored integrator *)

Section Integrator.
Context {R : Type} `{!Scalar R}.
Variable quadrature : list R → list R → nat → R.

Lemma snap_succeeds (adjust : option (list R)) f i n (running : R) :
  covered adjust f n → (i < n)%nat → ∃ v, snap adjust f i running = Ok v.
Proof.
  unfold covered, snap. destruct adjust as [reference|], f as [f|]; eauto.
  intros [Hf Hn] Hi.
  destruct (Nat.eqb_spec f 0) as [|_]; [lia|].
  destruct (i mod f =? 0)%nat; eauto.
  destruct (lookup_lt_is_Some_2 reference i) as [v Hv]; [lia|].
  rewrite Hv. eauto.
Qed.

Lemma snap_anchor (reference : list R) f i running v :
  snap (Some reference) (Some f) i running = Ok v →
  (0 < f)%nat → (i mod f = 0)%nat → reference !! i = Some v.
Proof.
  unfold snap. intros Hsnap Hf Hi.
  destruct (Nat.eqb_spec f 0) as [|_]; [lia|].
  rewrite Hi in Hsnap. simpl in Hsnap. by apply of_option_Ok in Hsnap.
Qed.

Lemma snap_free i (running : R) : snap None None i running = Ok running.
Proof. done. Qed.

Lemma running_integral_length times row adjust f i steps previous out :
  running_integral quadrature times row adjust f i steps previous = Ok out →
  length out = steps.
Proof.
  revert i previous out. induction steps as [|steps IH]; intros i previous out; simpl.
  - by intros [= <-].
  - intros Hrun. bind_inv Hrun. bind_inv Hrun. injection Hrun as <-.
    simpl. f_equal. eauto.
Qed.

Lemma running_integral_succeeds times row adjust f i steps previous n :
  covered adjust f n → (i + steps ≤ n)%nat →
  ∃ out, running_integral quadrature times row adjust f i steps previous = Ok out.
Proof.
  intros Hcov. revert i previous.
  induction steps as [|steps IH]; intros i previous Hn; simpl; [eauto|].
  destruct (snap_succeeds adjust f i n (add previous (quadrature times row i)))
    as [v ->]; [done | lia |]. simpl.
  destruct (IH (S i) v) as [out ->]; [lia|]. simpl. eauto.
Qed.

Lemma running_integral_anchor times row (reference : list R) f i steps previous
    (out : list R) j :
  running_integral quadrature times row (Some reference) (Some f) i steps previous
  = Ok out →
  (0 < f)%nat → (j < steps)%nat → ((i + j) mod f = 0)%nat →
  out !! j = reference !! (i + j)%nat ∧ is_Some (out !! j).
Proof.
  revert i previous out j.
  induction steps as [|steps IH]; intros i previous out j; simpl; [lia|].
  intros Hrun Hf Hj Hmod. bind_inv Hrun. bind_inv Hrun. injection Hrun as <-.
  destruct j as [|j].
  - rewrite Nat.add_0_r in *. simpl.
    erewrite snap_anchor by done. eauto.
  - simpl. replace (i + S j)%nat with (S i + j)%nat in * by lia.
    eapply IH; [done | done | lia | done].
Qed.

Lemma integrate_row_length times row initial adjust f out :
  integrate_row quadrature times row initial adjust f = Ok out →
  length out = length row.
Proof.
  unfold integrate_row. destruct row as [|x row]; [by intros [= <-]|].
  intros Hrow. bind_inv Hrow. bind_inv Hrow. injection Hrow as <-.
  apply running_integral_length in Ha0. simpl in *. lia.
Qed.

Lemma integrate_row_succeeds times row initial adjust f :
  covered adjust f (length row) →
  ∃ out, integrate_row quadrature times row initial adjust f = Ok out.
Proof.
  intros Hcov. unfold integrate_row. destruct row as [|x row]; [eauto|].
  destruct (snap_succeeds adjust f 0 (length (x :: row)) initial)
    as [v ->]; [done | simpl; lia |]. simpl.
  destruct (running_integral_succeeds times (x :: row) adjust f 1
              (length row - 0) v (length (x :: row))) as [out ->];
    [done | simpl; lia |].
  simpl. eauto.
Qed.

(** Without a reference the first sample is the initial value. *)
Lemma integrate_row_initial times row initial (out : list R) :
  integrate_row quadrature times row initial None None = Ok out →
  (0 < length row)%nat → out !! 0%nat = Some initial.
Proof.
  unfold integrate_row. destruct row as [|x row]; [simpl; lia|].
  intros Hrow _. rewrite snap_free in Hrow. simpl in Hrow.
  bind_inv Hrow. by injection Hrow as <-.
Qed.

(** With a reference, every anchor sample is the reference sample. *)
Lemma integrate_row_anchor times row initial (reference : list R) f
    (out : list R) i :
  integrate_row quadrature times row initial (Some reference) (Some f) = Ok out →
  (0 < f)%nat → (i < length row)%nat → (i mod f = 0)%nat →
  out !! i = reference !! i ∧ is_Some (out !! i).
Proof.
  unfold integrate_row. destruct row as [|x row]; [simpl; lia|].
  intros Hrow Hf Hi Hmod. bind_inv Hrow. bind_inv Hrow. injection Hrow as <-.
  destruct i as [|i].
  - simpl. erewrite snap_anchor by done. eauto.
  - simpl. replace (S i) with (1 + i)%nat in * by lia.
    eapply running_integral_anchor; [done | done | simpl in *; lia | done].
Qed.

Lemma integrate_axes_row times rows r0 initial adjust_data f outs k (row : list R) :
  integrate_axes quadrature times rows r0 initial adjust_data f = Ok outs →
  rows !! k = Some row →
  ∃ init adjust out,
    axis_initial initial (r0 + k) = Ok init ∧
    axis_adjust adjust_data (r0 + k) = Ok adjust ∧
    integrate_row quadrature times row init adjust f = Ok out ∧
    outs !! k = Some out.
Proof.
  revert r0 outs k. induction rows as [|row' rows IH]; intros r0 outs k; [done|].
  simpl. intros Haxes Hk. do 4 bind_inv Haxes. injection Haxes as <-.
  destruct k as [|k].
  - injection Hk as ->. rewrite Nat.add_0_r. eauto 10.
  - simpl in Hk. replace (r0 + S k)%nat with (S r0 + k)%nat by lia.
    exact (IH (S r0) _ k Ha2 Hk).
Qed.

Lemma integrate_axes_length times rows r0 initial adjust_data f outs :
  integrate_axes quadrature times rows r0 initial adjust_data f = Ok outs →
  length outs = length rows.
Proof.
  revert r0 outs. induction rows as [|row rows IH]; intros r0 outs; simpl.
  - by intros [= <-].
  - intros Haxes. do 4 bind_inv Haxes. injection Haxes as <-.
    simpl. f_equal. eauto.
Qed.

(** The integrator hands back a series of the shape of its input. *)
Lemma integrate_axes_shape times rows r0 initial adjust_data f outs r c :
  integrate_axes quadrature times rows r0 initial adjust_data f = Ok outs →
  shape rows r c → shape outs r c.
Proof.
  intros Haxes [Hr Hc]. split.
  - by rewrite (integrate_axes_length _ _ _ _ _ _ _ Haxes).
  - apply Forall_lookup. intros k out Hout.
    destruct (lookup_lt_is_Some_2 rows k) as [row Hrow].
    { rewrite <-(integrate_axes_length _ _ _ _ _ _ _ Haxes).
      by eapply lookup_lt_Some. }
    destruct (integrate_axes_row _ _ _ _ _ _ _ _ _ Haxes Hrow)
      as (init & adjust & out' & _ & _ & Hint & Hout').
    rewrite Hout in Hout'. injection Hout' as <-.
    rewrite (integrate_row_length _ _ _ _ _ _ Hint).
    by eapply (Forall_lookup_1 _ _ _ _ Hc).
Qed.

Lemma simps_integrate_shape times vectors initial adjust_data f out r c :
  simps_integrate quadrature times vectors initial adjust_data f = Ok out →
  shape vectors r c → shape out r c.
Proof.
  unfold simps_integrate. destruct (strictly_increasing times); [|done].
  apply integrate_axes_shape.
Qed.

Lemma integrate_axes_succeeds times rows r0 initial adjust_data f c :
  Forall (λ row, length row = c) rows →
  axes_supplied initial adjust_data f r0 (length rows) c →
  ∃ outs, integrate_axes quadrature times rows r0 initial adjust_data f = Ok outs.
Proof.
  intros Hc. revert r0. induction Hc as [|row rows Hrow _ IH]; intros r0; [simpl; eauto|].
  intros (Hinit & Hadj). simpl in *.
  assert (∃ init, axis_initial initial r0 = Ok init) as [init ->].
  { destruct initial as [v|]; simpl; [|eauto].
    destruct (lookup_lt_is_Some_2 v r0) as [x ->]; [|simpl; eauto].
    specialize (Hinit v eq_refl). lia. }
  assert (∃ adjust, axis_adjust adjust_data r0 = Ok adjust
                    ∧ covered adjust f (length row)) as (adjust & -> & Hcov).
  { destruct adjust_data as [m|]; simpl; [|by exists None].
    destruct (Hadj m eq_refl) as (Hm & Hcols & Hf).
    destruct (lookup_lt_is_Some_2 m r0) as [reference Href]; [lia|].
    rewrite Href. simpl. eexists. split; [done|].
    unfold covered. destruct f as [f'|]; [|done].
    split; [by apply Hf|].
    rewrite Hrow. by eapply (Forall_lookup_1 _ _ _ _ Hcols). }
  simpl.
  destruct (integrate_row_succeeds times row init adjust f Hcov) as [out ->].
  simpl.
  destruct (IH (S r0)) as [outs ->]; [|simpl; eauto].
  split.
  - intros v Hv. specialize (Hinit v Hv). lia.
  - intros m Hm. destruct (Hadj m Hm) as (? & ? & ?). repeat split; [lia | done..].
Qed.

Lemma axis_adjust_Some (m : Mat R) k adjust :
  axis_adjust (Some m) k = Ok adjust →
  ∃ reference, m !! k = Some reference ∧ adjust = Some reference.
Proof.
  unfold axis_adjust. destruct (m !! k) as [reference|]; simpl; [|done].
  intros [= <-]. eauto.
Qed.

(** Anchoring at any positive frequency: the output is the reference on
    every anchor sample. *)
Lemma simps_integrate_anchored times (vectors : Mat R) r N initial
    (adjust_data : Mat R) f :
  strictly_increasing times = true →
  shape vectors r N →
  (∀ v, initial = Some v → length v = r) →
  shape adjust_data r N →
  (0 < f)%nat →
  ∃ out,
    simps_integrate quadrature times vectors initial (Some adjust_data) (Some f)
    = Ok out ∧
    shape out r N ∧
    ∀ k i, (k < r)%nat → (i < N)%nat → (i mod f = 0)%nat →
      entry out k i = entry adjust_data k i ∧ is_Some (entry out k i).
Proof.
  intros Hinc [Hr Hc] Hinit [Har Hac] Hf. unfold simps_integrate. rewrite Hinc.
  destruct (integrate_axes_succeeds times vectors 0 initial
              (Some adjust_data) (Some f) N Hc) as [out Hout].
  { split.
    - intros v Hv. rewrite (Hinit v Hv). simpl. lia.
    - intros m [= <-]. split; [simpl; lia|]. split.
      + eapply Forall_impl; [exact Hac|]. simpl. lia.
      + by intros f' [= <-]. }
  exists out. split; [done|]. split; [by eapply integrate_axes_shape|].
  intros k i Hk Hi Hmod.
  destruct (lookup_lt_is_Some_2 vectors k) as [row Hrow]; [lia|].
  destruct (integrate_axes_row _ _ _ _ _ _ _ _ _ Hout Hrow)
    as (init & adjust & out_k & _ & Hadj & Hint & Hout_k).
  apply axis_adjust_Some in Hadj as (reference & Href & ->).
  unfold entry. rewrite Hout_k. simpl in Href. rewrite Href. simpl.
  eapply integrate_row_anchor; [done | done | | done].
  by rewrite (Forall_lookup_1 _ _ _ _ Hc Hrow).
Qed.

(** C2.  On a strictly increasing time vector the integrator returns, and
    its output has the shape of its input.  Without a reference the first
    sample of every axis is the initial value; with a reference and
    [adjust_frequency = 1] every sample of the output, the first one
    included, is the reference sample. *)
Theorem simps_integrate_contract times (vectors : Mat R) r N :
  strictly_increasing times = true →
  shape vectors r N →
  (∀ initial : list R, length initial = r →
     ∃ out,
       simps_integrate quadrature times vectors (Some initial) None None = Ok out ∧
       shape out r N ∧
       ∀ k, (k < r)%nat → (0 < N)%nat →
         entry out k 0 = initial !! k ∧ is_Some (entry out k 0))
  ∧
  (∀ (initial : option (list R)) (adjust_data : Mat R),
     (∀ v, initial = Some v → length v = r) →
     shape adjust_data r N →
     ∃ out,
       simps_integrate quadrature times vectors initial (Some adjust_data)
         (Some 1%nat) = Ok out ∧
       shape out r N ∧
       ∀ k i, (k < r)%nat → (i < N)%nat →
         entry out k i = entry adjust_data k i ∧ is_Some (entry out k i)).
Proof.
  intros Hinc Hshape. split.
  - intros initial Hinit. destruct Hshape as [Hr Hc].
    unfold simps_integrate. rewrite Hinc.
    destruct (integrate_axes_succeeds times vectors 0 (Some initial) None None N Hc)
      as [out Hout].
    { split; [|done]. intros v [= <-]. simpl. lia. }
    exists out. split; [done|]. split; [by eapply integrate_axes_shape|].
    intros k Hk HN.
    destruct (lookup_lt_is_Some_2 vectors k) as [row Hrow]; [lia|].
    destruct (integrate_axes_row _ _ _ _ _ _ _ _ _ Hout Hrow)
      as (init & adjust & out_k & Hini & Hadj & Hint & Hout_k).
    simpl in Hini, Hadj. injection Hadj as <-.
    apply of_option_Ok in Hini.
    unfold entry. rewrite Hout_k, Hini. simpl.
    erewrite integrate_row_initial; [eauto | done |].
    by rewrite (Forall_lookup_1 _ _ _ _ Hc Hrow).
  - intros initial adjust_data Hinit Hadj.
    destruct (simps_integrate_anchored times vectors r N initial adjust_data 1)
      as (out & Hout & Hsh & Hanchor); [done.. | lia |].
    exists out. split; [done|]. split; [done|].
    intros k i Hk Hi. apply Hanchor; [done | done |]. apply Nat.mod_1_r.
Qed.

(** The other half of the contract: a time vector that is not strictly
    increasing makes the integrator fail with the ordering error. *)
Lemma simps_integrate_ordering times vectors initial adjust_data f :
  strictly_increasing times = false →
  simps_integrate quadrature times vectors initial adjust_data f
  = Raise OrderingError.
Proof. intros Hinc. unfold simps_integrate. by rewrite Hinc. Qed.
End Integrator.

Lemma simps_integrate_contract_witness :
  let times := [0; 1; 2; 3] in
  let vectors := [[2; 2; 2; 2]; [0; 2; 4; 6]] in
  let reference := [[100; 101; 102; 103]; [200; 201; 202; 203]] in
  (∃ out, simps_integrate trapezoid times vectors (Some [7; 1]) None None = Ok out
          ∧ shape out 2 4 ∧ entry out 1 0 = Some 1) ∧
  (∃ out, simps_integrate trapezoid times vectors None (Some reference) (Some 1%nat)
          = Ok out
          ∧ shape out 2 4 ∧ entry out 1 3 = Some 203).
Proof.
  intros times vectors reference.
  assert (strictly_increasing times = true) as Hinc by reflexivity.
  assert (shape vectors 2 4) as Hshape by (split; [reflexivity | repeat constructor]).
  assert (shape reference 2 4) as Href by (split; [reflexivity | repeat constructor]).
  destruct (simps_integrate_contract trapezoid times vectors 2 4 Hinc Hshape)
    as [Hfree Hanchored].
  split.
  - destruct (Hfree [7; 1] eq_refl) as (out & Hout & Hsh & Hfirst).
    exists out. split; [exact Hout|]. split; [exact Hsh|].
    destruct (Hfirst 1%nat) as [-> _]; [lia | lia | reflexivity].
  - destruct (Hanchored None reference) as (out & Hout & Hsh & Hsnap).
    { intros v Hv. discriminate Hv. }
    { exact Href. }
    exists out. split; [exact Hout|]. split; [exact Hsh|].
    destruct (Hsnap 1%nat 3%nat) as [-> _]; [lia | lia | reflexivity].
Defined.

(** ** The stationary detector *)

Section Detector.
Context {R : Type} `{!Scalar R}.
Variable speed_threshold : R.
Variable min_duration : nat.

(** Every range [group_runs] reports is a non-empty run of marked samples
    of the series [all] it reads the tail of. *)
Lemma group_runs_sound (all : list bool) marks i current a b :
  marks = drop i all →
  (∀ s, current = Some s →
     (s < i)%nat ∧ ∀ j, (s ≤ j < i)%nat → all !! j = Some true) →
  (a, b) ∈ group_runs marks i current →
  (a < b)%nat ∧ (b ≤ length all)%nat ∧
  ∀ j, (a ≤ j < b)%nat → all !! j = Some true.
Proof.
  revert i current. induction marks as [|m marks IH]; intros i current Hmarks Hcur.
  - simpl. destruct current as [s|]; [|by intros ?%elem_of_nil].
    intros [= -> ->]%list_elem_of_singleton.
    destruct (Hcur s eq_refl) as [Hs Hrun]. split; [done|]. split; [|done].
    destruct (decide (i ≤ length all)%nat) as [|Hlen]; [done|].
    assert (all !! (i - 1)%nat = Some true) as Hlast by (apply Hrun; lia).
    apply lookup_lt_Some in Hlast. lia.
  - assert (all !! i = Some m ∧ marks = drop (S i) all) as [Hi Htail].
    { assert (all !! i = Some m) as Hi.
      { rewrite <-(Nat.add_0_r i), <-lookup_drop, <-Hmarks. done. }
      split; [done|]. rewrite (drop_S _ _ _ Hi) in Hmarks. by injection Hmarks. }
    simpl. destruct m.
    + apply IH; [done|]. intros s Hs. destruct current as [s'|]; simpl in Hs.
      * injection Hs as <-. destruct (Hcur s' eq_refl) as [Hlt Hrun].
        split; [lia|]. intros j Hj.
        destruct (decide (j = i)) as [->|]; [done|]. apply Hrun. lia.
      * injection Hs as <-. split; [lia|]. intros j Hj.
        by replace j with i by lia.
    + destruct current as [s|].
      * intros [[= -> ->] | Hin]%elem_of_cons.
        -- destruct (Hcur s eq_refl) as [Hlt Hrun]. split; [done|].
           split; [|done]. apply lookup_lt_Some in Hi. lia.
        -- revert Hin. by apply IH.
      * by apply IH.
Qed.

(** Whatever the detector returns is a list of qualifying runs. *)
Lemma get_stationary_times_sound speeds intervals a b :
  get_stationary_times speed_threshold min_duration speeds = Ok intervals →
  (a, b) ∈ intervals →
  qualifying_run speed_threshold min_duration speeds a b.
Proof.
  unfold get_stationary_times.
  set (marks := map (λ v, ltb v speed_threshold) speeds).
  destruct (List.filter _ _) as [|x l] eqn:Hfilter; [done|].
  intros [= <-] Hin. rewrite <-Hfilter in Hin.
  apply list_elem_of_In, filter_In in Hin as [Hin Hlong].
  apply list_elem_of_In in Hin.
  destruct (group_runs_sound marks marks 0 None a b) as (Hab & Hb & Hrun);
    [done | done | done |].
  unfold long_enough in Hlong. simpl in Hlong. apply Nat.leb_le in Hlong.
  subst marks. rewrite length_map in Hb.
  repeat split; [done..|].
  intros i v Hi Hv. specialize (Hrun i Hi).
  change (map ?f ?l) with (f <$> l) in Hrun.
  rewrite list_lookup_fmap, Hv in Hrun. by injection Hrun.
Qed.

(** The detector either fails with its own error or returns a non-empty
    list. *)
Lemma get_stationary_times_cases speeds :
  get_stationary_times speed_threshold min_duration speeds
  = Raise StationaryNotFoundError
  ∨ ∃ interval intervals,
      get_stationary_times speed_threshold min_duration speeds
      = Ok (interval :: intervals).
Proof.
  unfold get_stationary_times. destruct (List.filter _ _); eauto.
Qed.

Lemma get_stationary_times_none speeds :
  (∀ a b, ¬ qualifying_run speed_threshold min_duration speeds a b) →
  get_stationary_times speed_threshold min_duration speeds
  = Raise StationaryNotFoundError.
Proof.
  intros Hnone.
  destruct (get_stationary_times_cases speeds) as [|([a b] & l & Hok)]; [done|].
  destruct (Hnone a b).
  eapply get_stationary_times_sound; [done | by left].
Qed.

(** Conversely, a run of marked samples is inside one of the ranges
    [group_runs] reports. *)
Lemma group_runs_complete (all : list bool) marks i current a b :
  marks = drop i all →
  (a < b)%nat → (b ≤ length all)%nat →
  (∀ j, (a ≤ j < b)%nat → all !! j = Some true) →
  (∀ s, current = Some s → (s ≤ a)%nat) →
  ((a < i)%nat → is_Some current) →
  ∃ s e, (s, e) ∈ group_runs marks i current ∧ (s ≤ a)%nat ∧ (b ≤ e)%nat.
Proof.
  intros Hmarks Hab Hb Hrun. revert i current Hmarks.
  induction marks as [|m marks IH]; intros i current Hmarks Hstart Hopen.
  - assert (length all ≤ i)%nat as Hi.
    { destruct (decide (length all ≤ i)%nat) as [|Hlt]; [done|].
      assert (length (drop i all) = 0%nat) as Hlen by by rewrite <-Hmarks.
      rewrite length_drop in Hlen. lia. }
    destruct Hopen as [s ->]; [lia|]. simpl.
    exists s, i. split; [by left|]. split; [by apply Hstart | lia].
  - assert (all !! i = Some m ∧ marks = drop (S i) all) as [Hi Htail].
    { assert (all !! i = Some m) as Hi.
      { rewrite <-(Nat.add_0_r i), <-lookup_drop, <-Hmarks. done. }
      split; [done|]. rewrite (drop_S _ _ _ Hi) in Hmarks. by injection Hmarks. }
    simpl. destruct m.
    + apply IH; [done | | by eauto].
      intros s Hs. destruct current as [s'|]; simpl in Hs; injection Hs as <-.
      * by apply Hstart.
      * destruct (decide (a < i)%nat) as [Hlt|]; [|lia].
        by destruct (Hopen Hlt).
    + assert (i < a ∨ b ≤ i)%nat as Hout.
      { destruct (decide (a ≤ i < b)%nat) as [Hin|]; [|lia].
        specialize (Hrun i Hin). congruence. }
      destruct current as [s|].
      * destruct Hout as [Hlt|Hge].
        -- destruct (IH (S i) None) as (s' & e & Hin & ?); [done | done | lia |].
           exists s', e. split; [by right | done].
        -- exists s, i. split; [by left|]. split; [by apply Hstart | done].
      * destruct Hout as [Hlt|Hge].
        -- apply IH; [done | done | lia].
        -- destruct Hopen as [? [=]]. lia.
Qed.

(** The detector finds an interval exactly when the series holds a
    qualifying run. *)
Lemma get_stationary_times_found speeds :
  succeeds (get_stationary_times speed_threshold min_duration speeds)
  ↔ ∃ a b, qualifying_run speed_threshold min_duration speeds a b.
Proof.
  split.
  - intros [intervals Hok].
    destruct (get_stationary_times_cases speeds) as [Hraise|([a b] & l & Hok')];
      [congruence|].
    exists a, b. eapply get_stationary_times_sound; [done | by left].
  - intros (a & b & Hab & Hb & Hlong & Hrun).
    set (marks := map (λ v, ltb v speed_threshold) speeds).
    destruct (group_runs_complete marks marks 0 None a b)
      as (s & e & Hin & Hs & He); [done | done | | | done | lia |].
    { subst marks. by rewrite length_map. }
    { intros j Hj. subst marks. change (map ?f ?l) with (f <$> l).
      rewrite list_lookup_fmap.
      destruct (lookup_lt_is_Some_2 speeds j) as [v Hv]; [lia|].
      rewrite Hv. simpl. f_equal. by eapply Hrun. }
    unfold succeeds, get_stationary_times. fold marks.
    destruct (List.filter _ _) as [|x l] eqn:Hfilter; [|eauto].
    assert (In (s, e) (List.filter (long_enough min_duration)
                         (group_runs marks 0 None))) as Hfalse.
    { apply filter_In. split; [by apply list_elem_of_In|].
      unfold long_enough. simpl. apply Nat.leb_le. lia. }
    rewrite Hfilter in Hfalse. destruct Hfalse.
Qed.
End Detector.

(** ** The entry point *)

Section EntryPoint.
Context {R : Type} `{!Scalar R}.

Lemma imul_entry (m : Mat R) c k i :
  entry (imul m c) k i = (λ x, mul x c) <$> entry m k i.
Proof.
  unfold entry, imul. change (map ?f ?l) with (f <$> l).
  rewrite list_lookup_fmap. destruct (m !! k) as [row|]; simpl; [|done].
  change (map ?f ?l) with (f <$> l). by rewrite list_lookup_fmap.
Qed.

Lemma imul_shape (m : Mat R) c r n : shape m r n → shape (imul m c) r n.
Proof.
  intros [Hr Hc]. unfold imul. split; [by rewrite length_map|].
  change (map ?f ?l) with (f <$> l). apply Forall_fmap.
  eapply Forall_impl; [exact Hc|]. intros row Hrow. simpl. by rewrite length_map.
Qed.

(** C6.  When the test asks for the inversion, every sample of the
    accelerations and of the integrated velocities is multiplied by -1 and
    the shapes are kept; when it does not, both series are the ones that
    went in. *)
Theorem sign_correct_negates (accelerations correct_velocities : Mat R) :
  (let '(accelerations', correct_velocities') :=
     sign_correct true accelerations correct_velocities in
   (∀ k i, entry accelerations' k i
           = (λ x, mul x (of_Z (-1))) <$> entry accelerations k i) ∧
   (∀ k i, entry correct_velocities' k i
           = (λ x, mul x (of_Z (-1))) <$> entry correct_velocities k i) ∧
   length accelerations' = length accelerations ∧
   length correct_velocities' = length correct_velocities)
  ∧ sign_correct false accelerations correct_velocities
    = (accelerations, correct_velocities).
Proof.
  split; [|done]. simpl.
  split; [intros k i; apply imul_entry|].
  split; [intros k i; apply imul_entry|].
  unfold imul. by rewrite !length_map.
Qed.

(** C7.  With at least three rows of accelerations and a first stationary
    interval [(a, b)], line 80 returns; it leaves the times, the GNSS data,
    the angular velocities and the rows other than the vertical one as they
    were, and takes the mean of the samples [a .. b - 1] of the vertical row
    off each of its samples. *)
Theorem remove_g_frame (s : Locals R) (stationary_times : list (nat * nat))
    (z : list R) (a b : nat) :
  l_accelerations s !! 2%nat = Some z →
  stationary_times !! 0%nat = Some (a, b) →
  ∃ s',
    remove_g s stationary_times = Ok s' ∧
    l_times s' = l_times s ∧
    l_gps_speed s' = l_gps_speed s ∧
    l_angular_velocities s' = l_angular_velocities s ∧
    l_gnss_positions s' = l_gnss_positions s ∧
    l_real_velocities s' = l_real_velocities s ∧
    l_real_speeds s' = l_real_speeds s ∧
    length (l_accelerations s') = length (l_accelerations s) ∧
    (∀ k, k ≠ 2%nat → l_accelerations s' !! k = l_accelerations s !! k) ∧
    l_accelerations s' !! 2%nat
    = Some (map (λ x, sub x (mean (py_slice (Some (Z.of_nat a)) (Some (Z.of_nat b)) z))) z).
Proof.
  intros Hz Hfirst. unfold remove_g. rewrite Hz, Hfirst. simpl.
  eexists. split; [reflexivity|]. simpl. repeat split.
  - by rewrite length_insert.
  - intros k Hk. by rewrite list_lookup_insert_ne.
  - apply list_lookup_insert_eq. by eapply lookup_lt_Some.
Qed.

(** Without a third row or without a stationary interval line 80 raises
    [IndexError]: the entry point never goes on with an empty reference. *)
Lemma remove_g_empty (s : Locals R) :
  remove_g s [] = Raise IndexError.
Proof. unfold remove_g. by destruct (l_accelerations s !! 2%nat). Qed.

Lemma remove_g_shape (s s' : Locals R) stationary_times r n :
  remove_g s stationary_times = Ok s' →
  shape (l_accelerations s) r n →
  shape (l_accelerations s') r n ∧ l_times s' = l_times s.
Proof.
  unfold remove_g. intros Hg [Hr Hc]. bind_inv Hg. bind_inv Hg.
  injection Hg as <-. simpl. apply of_option_Ok in Ha.
  split; [|done]. split; [by rewrite length_insert|].
  apply Forall_insert; [done|]. rewrite length_map.
  by eapply (Forall_lookup_1 _ _ _ _ Hc).
Qed.

Variable st : Stages R.

(** C3.  When the speeds the entry point derives from the GNSS positions
    hold no qualifying run, the detector raises [StationaryNotFoundError]
    and the entry point fails with that very error. *)
Theorem no_stationary_interval_fails (w : World) (path : string) (s : Locals R) :
  front st w path = Ok s →
  (∀ a b, ¬ qualifying_run (speed_threshold st) (min_duration st)
            (l_real_speeds s) a b) →
  get_stationary_times (speed_threshold st) (min_duration st) (l_real_speeds s)
  = Raise StationaryNotFoundError ∧
  get_positions_times st w path = Raise StationaryNotFoundError.
Proof.
  intros Hfront Hnone.
  pose proof (get_stationary_times_none _ _ _ Hnone) as Hdetector.
  split; [done|].
  unfold get_positions_times. rewrite Hfront. simpl.
  unfold back. by rewrite Hdetector.
Qed.
End EntryPoint.

(** ** Shapes along the entry point *)

Section Shapes.
Context {R : Type} `{!Scalar R}.

Lemma mapM_Ok_length {A B} (f : A → Result B) (l : list A) (k : list B) :
  mapM f l = Ok k → length k = length l.
Proof.
  revert k. induction l as [|x l IH]; intros k; simpl; [by intros [= <-]|].
  intros Hm. bind_inv Hm. bind_inv Hm. injection Hm as <-. simpl. f_equal. eauto.
Qed.

Lemma mapM_Ok_Forall {A B} (f : A → Result B) (P : B → Prop) (l : list A) (k : list B) :
  (∀ x y, f x = Ok y → P y) → mapM f l = Ok k → Forall P k.
Proof.
  intros Hf. revert k. induction l as [|x l IH]; intros k; simpl.
  - intros [= <-]. constructor.
  - intros Hm. bind_inv Hm. bind_inv Hm. injection Hm as <-. constructor; eauto.
Qed.

Lemma col_values_length (df : DataFrame R) name (l : list R) :
  col_values df name = Ok l → length l = shape0 df.
Proof.
  unfold col_values. intros Hc. bind_inv Hc. injection Hc as <-.
  by rewrite length_map.
Qed.

Lemma cols_values_shape (df : DataFrame R) names (m : Mat R) :
  cols_values df names = Ok m → shape m (length names) (shape0 df).
Proof.
  unfold cols_values. intros Hm. split.
  - by eapply mapM_Ok_length.
  - eapply mapM_Ok_Forall; [|exact Hm]. intros x y. apply col_values_length.
Qed.

(** The 6-tuple of [get_vectors]: three rows of accelerations, one sample
    per time stamp. *)
Lemma get_vectors_full_shape interp1d (df : DataFrame R) t
    times coordinates altitudes gps_speed accelerations angular_velocities :
  get_vectors interp1d df t
  = Ok (FullInertial times coordinates altitudes gps_speed accelerations
          angular_velocities) →
  shape accelerations 3 (length times) ∧ shape angular_velocities 3 (length times).
Proof.
  unfold get_vectors. repeat case_bool_decide; intros Hgv.
  - do 4 bind_inv Hgv. discriminate.
  - do 6 bind_inv Hgv. injection Hgv as <- <- <- <- <- <-.
    rewrite (col_values_length _ _ _ Ha3).
    split; by eapply (cols_values_shape df [_; _; _]).
  - do 11 bind_inv Hgv. injection Hgv as <- <- <- <- <- <-.
    rewrite (col_values_length _ _ _ Ha6).
    split; by eapply (cols_values_shape _ [_; _; _]).
  - discriminate.
Qed.

Lemma parse_input_full_shape interp1d read_csv files path accepted slice_start
    slice_end (times : list R) coordinates altitudes gps_speed accelerations
    angular_velocities :
  parse_input interp1d read_csv files path accepted slice_start slice_end
  = Ok (FullInertial times coordinates altitudes gps_speed accelerations
          angular_velocities) →
  shape accelerations 3 (length times) ∧ shape angular_velocities 3 (length times).
Proof.
  unfold parse_input. intros Hp.
  bind_inv Hp as content Hfile. bind_inv Hp as df Hcsv.
  destruct (parse_frame_cases interp1d df path accepted slice_start slice_end)
    as [[_ Hr] | [(_ & _ & Hr) | [(_ & _ & _ & Hr) | [(_ & _ & _ & _ & Hr)
       | (_ & _ & _ & _ & Hr)]]]]; rewrite Hr in Hp; try discriminate.
  by eapply get_vectors_full_shape.
Qed.

Variable st : Stages R.
Hypothesis aligned : StagesAligned st.

(** Line 66: three rows of accelerations, one sample per time stamp. *)
Lemma front_shape (w : World) (path : string) (s : Locals R) :
  front st w path = Ok s →
  shape (l_accelerations s) 3 (length (l_times s)).
Proof.
  unfold front. intros Hf. bind_inv Hf as parsed Hparsed.
  destruct parsed as [| times coordinates altitudes gps_speed acc ang |];
    try discriminate.
  apply parse_input_full_shape in Hparsed as [Hacc _].
  bind_inv Hf as [[[acc' ang'] gps_speed'] coordinates'] Hunits.
  bind_inv Hf as [gnss_positions headings] Hgnss.
  unfold smooth, reduce_disturbance in Hf. simpl in Hf.
  bind_inv Hf as real_velocities Hvel. injection Hf as <-. simpl.
  apply (converts_shape st aligned) with (r := 3%nat) (c := length times) in Hunits;
    [|done].
  destruct Hunits as [Hr Hc]. rewrite trim_times_length. split.
  - by rewrite length_map.
  - change (map ?f ?l) with (f <$> l). apply Forall_fmap.
    eapply Forall_impl; [exact Hc|]. intros row <-. simpl.
    apply moving_average_length.
Qed.

(** Lines 69-103 keep the shape. *)
Lemma back_shape (s : Locals R) (position : Mat R) (times : list R) r :
  back st s = Ok (position, times) →
  shape (l_accelerations s) r (length (l_times s)) →
  shape position r (length times).
Proof.
  unfold back. intros Hb Hshape.
  bind_inv Hb as stationary_times Hstationary.
  bind_inv Hb as ang1 Hdrift.
  bind_inv Hb as times1 Hnormalize. simpl in Hb.
  bind_inv Hb as [acc2 ang2] Hz. simpl in Hb.
  bind_inv Hb as s3 Hg.
  bind_inv Hb as acc4 Hxy. simpl in Hb.
  bind_inv Hb as acc5 Hrotate. simpl in Hb.
  bind_inv Hb as acc6 Halign. simpl in Hb.
  bind_inv Hb as speed0 Hspeed.
  bind_inv Hb as velocities Hintegrate.
  bind_inv Hb as necessary Hsign.
  assert (length times1 = length (l_times s)) as Htimes.
  { by apply (normalize_length st aligned). }
  assert (shape acc2 r (length times1)) as Hacc2.
  { rewrite Htimes. by eapply (correct_z_shape st aligned). }
  destruct (remove_g_shape _ _ _ r (length times1) Hg Hacc2) as [Hacc3 Htimes3].
  simpl in Htimes3.
  assert (shape acc6 r (length times1)) as Hacc6.
  { eapply (align_shape st aligned); [done|].
    eapply (rotate_shape st aligned); [done|].
    by eapply (correct_xy_shape st aligned). }
  assert (shape velocities r (length times1)) as Hvel.
  { by eapply simps_integrate_shape. }
  destruct necessary; simpl in Hb; bind_inv Hb as pos Hpos; injection Hb as <- <-;
    rewrite Htimes3.
  - eapply simps_integrate_shape; [done|]. by apply imul_shape.
  - by eapply simps_integrate_shape.
Qed.

(** C1.  Whenever the entry point returns, it returns three rows of
    positions with one sample per returned time stamp. *)
Theorem get_positions_times_shape (w : World) (path : string)
    (position : Mat R) (times : list R) :
  get_positions_times st w path = Ok (position, times) →
  shape position 3 (length times).
Proof.
  unfold get_positions_times. intros Hrun. bind_inv Hrun as s Hfront.
  eapply back_shape; [done|]. by eapply front_shape.
Qed.
End Shapes.

(** ** The definitions at work on the example recording *)

Lemma stages_aligned (velocity : Z) : StagesAligned (Example.stages velocity).
Proof.
  split; simpl.
  - by intros acc ang sp co acc' ang' sp' co' [= <- _ _ _].
  - by intros t t' [= <-].
  - by intros acc ang sts acc' ang' [= <- _].
  - by intros acc ang acc' [= <-].
  - by intros t acc ang acc' [= <-].
  - by intros pos acc sts acc' [= <-].
Qed.

Lemma get_positions_times_shape_witness :
  shape [[10; 11; 12; 13]; [20; 22; 24; 26]; [5; 5; 5; 5]] 3
    (length [10; 11; 12; 13]).
Proof.
  apply (get_positions_times_shape Example.resting (stages_aligned 0)
           Example.world Example.path).
  vm_compute. reflexivity.
Defined.

Lemma no_stationary_interval_fails_witness :
  get_positions_times Example.moving Example.world Example.path
  = Raise StationaryNotFoundError.
Proof.
  eapply (λ s Hfront Hnone,
            proj2 (no_stationary_interval_fails Example.moving Example.world
                     Example.path s Hfront Hnone)).
  - vm_compute. reflexivity.
  - simpl. intros a b (Hab & Hb & _ & Hrun). simpl in Hb.
    assert (a < 4)%nat as Ha by lia.
    assert ((8 <? 1) = true) as Hlt; [|discriminate Hlt].
    apply (Hrun a 8); [lia|].
    by destruct a as [|[|[|[|a]]]]; [..|lia].
Defined.

Lemma remove_g_frame_witness :
  ∃ s', remove_g Example.locals [(0%nat, 2%nat)] = Ok s' ∧
        l_times s' = [0; 1; 2] ∧
        l_accelerations s' = [[1; 1; 1]; [2; 2; 2]; [0; 1; 2]].
Proof.
  destruct (remove_g_frame Example.locals [(0%nat, 2%nat)] [10; 11; 12] 0 2)
    as (s' & Hs' & Htimes & _); [reflexivity | reflexivity |].
  exists s'. split; [exact Hs'|]. split; [exact Htimes|].
  vm_compute in Hs'. by injection Hs' as <-.
Defined.

(** The detector on the stop between two drives: one interval, the stop. *)
Example get_stationary_times_stop :
  get_stationary_times 1 2 Example.stop_and_go = Ok [(10%nat, 50%nat)].
Proof. reflexivity. Qed.

(** A run on the resting vehicle returns the GNSS positions: with
    [adjust_frequency = 1] every sample is an anchor. *)
Example get_positions_times_resting :
  get_positions_times Example.resting Example.world Example.path
  = Ok ([[10; 11; 12; 13]; [20; 22; 24; 26]; [5; 5; 5; 5]], [10; 11; 12; 13]).
Proof. reflexivity. Qed.

(** * Further properties of the input adapter *)

(** ** [str.find] and the substrings of a path *)

Lemma substring_prefix (s1 s2 : string) :
  substring 0 (String.length s1) s2 = s1 ↔ ∃ rest, s2 = (s1 ++ rest)%string.
Proof.
  revert s2. induction s1 as [|c s1 IH]; intros s2; simpl.
  - split; [intros _; by exists s2 | by destruct s2].
  - destruct s2 as [|c2 s2].
    + split; [done | by intros (rest & [=])].
    + split.
      * intros [= -> Hs]. apply IH in Hs as [rest ->]. by exists rest.
      * intros (rest & [= -> ->]). simpl. f_equal. apply IH. by exists rest.
Qed.

Lemma prefix_rest (s1 s2 : string) :
  String.prefix s1 s2 = true ↔ ∃ rest, s2 = (s1 ++ rest)%string.
Proof. by rewrite String.prefix_correct, substring_prefix. Qed.

Lemma index_cons (sub : string) (c : ascii) (s : string) :
  String.index 0 sub (String c s)
  = if String.prefix sub (String c s) then Some 0%nat
    else S <$> String.index 0 sub s.
Proof. simpl. by destruct (String.index 0 sub s). Qed.

Lemma index_occurs (sub s : string) :
  sub ≠ EmptyString → is_Some (String.index 0 sub s) ↔ occurs sub s.
Proof.
  intros Hsub. induction s as [|c s IH].
  - destruct sub as [|c sub]; [done|]. simpl. split.
    + by intros ?%is_Some_None.
    + intros ([|? before] & after & [=]).
  - rewrite index_cons. destruct (String.prefix sub (String c s)) eqn:Hprefix.
    + split; [|by intros _; eexists]. intros _.
      apply prefix_rest in Hprefix as [rest ->]. by exists EmptyString, rest.
    + split.
      * intros Hsome.
        destruct (String.index 0 sub s) as [n|] eqn:Hn; [|by apply is_Some_None in Hsome].
        destruct IH as [IH _]. destruct IH as (before & after & ->); [by eexists|].
        by exists (String c before), after.
      * intros ([|c' before] & after & Hs).
        -- simpl in Hs. assert (String.prefix sub (String c s) = true); [|congruence].
           apply prefix_rest. by exists after.
        -- simpl in Hs. injection Hs as -> ->.
           destruct IH as [_ IH]. destruct IH as [n ->]; [by exists before, after|].
           by eexists.
Qed.

(** [s.find(sub) != -1] says that [sub] occurs in [s]. *)
Lemma find_occurs (s sub : string) :
  sub ≠ EmptyString → find s sub ≠ -1 ↔ occurs sub s.
Proof.
  intros Hsub. rewrite <-(index_occurs sub s Hsub). unfold find.
  destruct (String.index 0 sub s) as [n|].
  - split; [by intros _; eexists | lia].
  - split; [done | by intros ?%is_Some_None].
Qed.

Lemma find_test (s sub : string) :
  sub ≠ EmptyString →
  negb (find s sub =? -1) = true ↔ occurs sub s.
Proof.
  intros Hsub. rewrite <-(find_occurs s sub Hsub).
  rewrite negb_true_iff, Z.eqb_neq. done.
Qed.

Lemma append_assoc (s1 s2 s3 : string) :
  ((s1 ++ s2) ++ s3 = s1 ++ s2 ++ s3)%string.
Proof.
  induction s1 as [|c s1 IH]; [done|].
  change (String c ((s1 ++ s2) ++ s3) = String c (s1 ++ s2 ++ s3))%string.
  by rewrite IH.
Qed.

Lemma occurs_longer (sub before after s : string) :
  occurs (before ++ sub ++ after)%string s → occurs sub s.
Proof.
  intros (b & a & ->). exists (b ++ before)%string, (after ++ a)%string.
  by rewrite !append_assoc.
Qed.

(** ** [detect_input_type] *)

Section Detection.
Context {R : Type} `{!Scalar R}.

(** The cascade of [detect_input_type], each test read as an occurrence. *)
Lemma detect_input_type_cases (df : DataFrame R) (filepath : string) :
  let t := detect_input_type df filepath in
  (occurs "acc" filepath ∧ t = ACCELERATION) ∨
  (¬ occurs "acc" filepath ∧
   ((occurs "gnss" filepath ∧ t = GNSS) ∨
    (¬ occurs "gnss" filepath ∧
     ((occurs "gyr" filepath ∧ t = GYROSCOPE) ∨
      (¬ occurs "gyr" filepath ∧
       ((occurs "unmodified-fullinertial" filepath ∧ t = UNMOD_FULLINERTIAL) ∨
        (¬ occurs "unmodified-fullinertial" filepath ∧
         ((occurs "unmodified-inertial" filepath ∧ t = UNMOD_INERTIAL) ∨
          (¬ occurs "unmodified-inertial" filepath ∧
           ((occurs "fullinertial" filepath ∧ t = FULLINERTIAL) ∨
            (¬ occurs "fullinertial" filepath ∧
             ((occurs "inertial" filepath ∧ t = INERTIAL) ∨
              (¬ occurs "inertial" filepath ∧
               t = (if (shape1 df =? 4)%nat then ACCELERATION
                    else if (shape1 df =? 10)%nat then
                      if isnull_any df then UNMOD_INERTIAL else INERTIAL
                    else if (shape1 df =? 14)%nat then
                      if isnull_any df then UNMOD_FULLINERTIAL else FULLINERTIAL
                    else UNRECOGNIZED)))))))))))))).
Proof.
  intros t. subst t. unfold detect_input_type.
  repeat match goal with
  | |- context [negb (find filepath ?sub =? -1)] =>
      let H := fresh "H" in
      destruct (negb (find filepath sub =? -1)) eqn:H;
      [ apply find_test in H; [|done]; left; by split
      | right; split;
        [ rewrite <-(find_test filepath sub) by done; congruence | ] ]
  end.
  done.
Qed.

Lemma no_hint_no_name (filepath : string) :
  ¬ name_hint filepath →
  ¬ occurs "acc" filepath ∧ ¬ occurs "gnss" filepath ∧ ¬ occurs "gyr" filepath ∧
  ¬ occurs "unmodified-fullinertial" filepath ∧
  ¬ occurs "unmodified-inertial" filepath ∧
  ¬ occurs "fullinertial" filepath ∧ ¬ occurs "inertial" filepath.
Proof.
  unfold name_hint. intros Hno. repeat split; try tauto.
  - intros H. apply (occurs_longer "inertial" "unmodified-full" "") in H. tauto.
  - intros H. apply (occurs_longer "inertial" "unmodified-" "") in H. tauto.
  - intros H. apply (occurs_longer "inertial" "full" "") in H. tauto.
Qed.

(** Without a hint in the name the type is read off the column count. *)
Lemma detect_input_type_no_hint (df : DataFrame R) (filepath : string) :
  ¬ name_hint filepath →
  detect_input_type df filepath
  = if (shape1 df =? 4)%nat then ACCELERATION
    else if (shape1 df =? 10)%nat then
      if isnull_any df then UNMOD_INERTIAL else INERTIAL
    else if (shape1 df =? 14)%nat then
      if isnull_any df then UNMOD_FULLINERTIAL else FULLINERTIAL
    else UNRECOGNIZED.
Proof.
  intros (? & ? & ? & ? & ? & ? & ?)%no_hint_no_name.
  pose proof (detect_input_type_cases df filepath) as Hcases. simpl in Hcases.
  intuition.
Qed.

(** X1.  [detect_input_type] gives up exactly when the path holds none of
    "acc", "gnss", "gyr", "inertial" and the table has neither 4, nor 10,
    nor 14 columns. *)
Theorem detect_input_type_unrecognized (df : DataFrame R) (filepath : string) :
  detect_input_type df filepath = UNRECOGNIZED
  ↔ ¬ name_hint filepath ∧
    shape1 df ≠ 4%nat ∧ shape1 df ≠ 10%nat ∧ shape1 df ≠ 14%nat.
Proof.
  split.
  - intros Ht.
    assert (¬ name_hint filepath) as Hno.
    { pose proof (detect_input_type_cases df filepath) as Hcases.
      simpl in Hcases. rewrite Ht in Hcases. unfold name_hint.
      intuition congruence. }
    split; [done|]. rewrite (detect_input_type_no_hint df filepath Hno) in Ht.
    destruct (Nat.eqb_spec (shape1 df) 4); [done|].
    destruct (Nat.eqb_spec (shape1 df) 10); [by destruct (isnull_any df)|].
    destruct (Nat.eqb_spec (shape1 df) 14); [by destruct (isnull_any df)|].
    done.
  - intros (Hno & H4 & H10 & H14).
    rewrite (detect_input_type_no_hint df filepath Hno).
    destruct (Nat.eqb_spec (shape1 df) 4); [done|].
    destruct (Nat.eqb_spec (shape1 df) 10); [done|].
    by destruct (Nat.eqb_spec (shape1 df) 14).
Qed.

(** X2.  When the name gives a hint the table is not looked at: two tables
    under the same path get the same type. *)
Theorem detect_input_type_by_name (df1 df2 : DataFrame R) (filepath : string) :
  name_hint filepath →
  detect_input_type df1 filepath = detect_input_type df2 filepath.
Proof.
  intros Hhint.
  pose proof (detect_input_type_cases df1 filepath) as H1.
  pose proof (detect_input_type_cases df2 filepath) as H2.
  simpl in H1, H2. unfold name_hint in Hhint.
  assert (occurs "unmodified-fullinertial" filepath → occurs "inertial" filepath)
    by apply (occurs_longer "inertial" "unmodified-full" "").
  assert (occurs "unmodified-inertial" filepath → occurs "inertial" filepath)
    by apply (occurs_longer "inertial" "unmodified-" "").
  assert (occurs "fullinertial" filepath → occurs "inertial" filepath)
    by apply (occurs_longer "inertial" "full" "").
  intuition congruence.
Qed.

(** X3.  GNSS and GYROSCOPE are only ever read off the name: the column
    count never yields them. *)
Theorem detect_input_type_gnss_gyroscope (df : DataFrame R) (filepath : string) :
  (detect_input_type df filepath = GNSS →
   occurs "gnss" filepath ∧ ¬ occurs "acc" filepath) ∧
  (detect_input_type df filepath = GYROSCOPE →
   occurs "gyr" filepath ∧ ¬ occurs "acc" filepath ∧ ¬ occurs "gnss" filepath).
Proof.
  pose proof (detect_input_type_cases df filepath) as Hcases. simpl in Hcases.
  split; intros Ht; rewrite Ht in Hcases.
  - destruct Hcases as [[_ [=]] | (? & [[? _] | (_ & Hrest)])]; [done|].
    exfalso.
    repeat match goal with
    | H : _ ∨ _ |- _ => destruct H as [[_ [=]] | (_ & H)]
    end.
    revert Hrest.
    by repeat match goal with
    | |- context [if ?b then _ else _] => destruct b
    end.
  - destruct Hcases as [[_ [=]] | (? & [[_ [=]] | (? & [[? _] | (_ & Hrest)])])];
      [done|].
    exfalso.
    repeat match goal with
    | H : _ ∨ _ |- _ => destruct H as [[_ [=]] | (_ & H)]
    end.
    revert Hrest.
    by repeat match goal with
    | |- context [if ?b then _ else _] => destruct b
    end.
Qed.
End Detection.

(** ** [get_vectors] and [parse_input] *)

Section Vectors.
Context {R : Type} `{!Scalar R}.
Variable interp1d : list R → Mat R → option (R → list R).
Variable read_csv : string → option (DataFrame R).

Lemma column_index_Some (name : string) (names : list string) :
  is_Some (column_index name names) ↔ name ∈ names.
Proof.
  induction names as [|n names IH]; simpl.
  - split; [by intros ?%is_Some_None | by intros ?%elem_of_nil].
  - rewrite elem_of_cons. destruct (String.eqb_spec n name) as [->|Hne].
    + split; [by left | by eexists].
    + rewrite <-IH. split.
      * intros [i Hi]. right. destruct (column_index name names); [by eexists | done].
      * intros [-> | [i ->]]; [done | by eexists].
Qed.

Lemma col_values_cases (df : DataFrame R) (name : string) :
  (name ∈ df_columns df ∧
   ∃ i, column_index name (df_columns df) = Some i ∧
        col_values df name = Ok (map (cell i) (df_rows df))) ∨
  ((name ∉ df_columns df) ∧ col_values df name = Raise (KeyError name)).
Proof.
  unfold col_values.
  destruct (column_index name (df_columns df)) as [i|] eqn:Hi.
  - left. split; [apply column_index_Some; by eexists | by eauto].
  - right. split; [|done]. intros Hin%column_index_Some.
    rewrite Hi in Hin. by apply is_Some_None in Hin.
Qed.

Lemma col_values_lookup (df : DataFrame R) (name : string) (l : list R) i row :
  col_values df name = Ok l → df_rows df !! i = Some row →
  l !! i = field df name row.
Proof.
  intros Hl Hrow. unfold field.
  destruct (col_values_cases df name) as [(_ & j & Hj & Hok) | [_ Hraise]];
    [|congruence].
  rewrite Hj. rewrite Hok in Hl. injection Hl as <-.
  change (map ?f ?l) with (f <$> l). by rewrite list_lookup_fmap, Hrow.
Qed.

(** A selection of columns: every name there, or [KeyError] on the first
    one that is not. *)
Lemma cols_values_cases (df : DataFrame R) (names : list string) :
  (has_columns df names ∧ ∃ m, cols_values df names = Ok m) ∨
  (∃ name, name ∈ names ∧ (name ∉ df_columns df) ∧
           cols_values df names = Raise (KeyError name)).
Proof.
  unfold cols_values, has_columns. induction names as [|name names IH].
  - left. split; [constructor | by eexists].
  - simpl. destruct (col_values_cases df name) as [(Hin & i & _ & ->) | [Hout ->]].
    + simpl. destruct IH as [(Hall & m & ->) | (name' & Hin' & Hout' & ->)].
      * left. split; [by constructor | by eexists].
      * right. exists name'. split; [by right | done].
    + right. exists name. split; [by left | done].
Qed.

Lemma cols_values_entry (df : DataFrame R) (names : list string) (m : Mat R)
    k name i row :
  cols_values df names = Ok m → names !! k = Some name →
  df_rows df !! i = Some row →
  entry m k i = field df name row.
Proof.
  unfold cols_values. revert m k. induction names as [|n names IH]; intros m k; [done|].
  simpl. intros Hm Hk Hrow. bind_inv Hm as l Hl. bind_inv Hm as m' Hm'.
  injection Hm as <-. destruct k as [|k].
  - injection Hk as ->. unfold entry. simpl. by eapply col_values_lookup.
  - simpl in Hk. by apply (IH m' k).
Qed.

Lemma has_columns_app (df : DataFrame R) (l1 l2 : list string) :
  has_columns df (l1 ++ l2)%list ↔ has_columns df l1 ∧ has_columns df l2.
Proof. apply Forall_app. Qed.

Lemma has_columns_singleton (df : DataFrame R) (name : string) :
  has_columns df [name] ↔ name ∈ df_columns df.
Proof. unfold has_columns. by rewrite Forall_singleton. Qed.

Lemma transpose_rows_shape (c : nat) (rows : list (list R)) :
  shape (transpose_rows c rows) c (length rows).
Proof.
  revert rows. induction c as [|c IH]; intros rows; simpl.
  - split; [done | constructor].
  - destruct (IH (map (drop 1) rows)) as [Hr Hc]. rewrite length_map in Hc.
    split; [simpl; by rewrite Hr|]. constructor; [by rewrite length_map | done].
Qed.

(** X4.  On a table that has the eight columns of an inertial log,
    [get_vectors] returns the 4-tuple, one sample per row and in the order of
    the rows: sample [i] of each series is the cell of row [i] under the
    column of that series. *)
Theorem get_vectors_inertial (df : DataFrame R) (t : InputType) :
  t = INERTIAL ∨ t = UNMOD_INERTIAL →
  has_columns df inertial_columns →
  ∃ times gps_speed accelerations angular_velocities,
    get_vectors interp1d df t
    = Ok (Inertial times gps_speed accelerations angular_velocities) ∧
    vectors_aligned (Inertial times gps_speed accelerations angular_velocities)
      (shape0 df) ∧
    ∀ i row, df_rows df !! i = Some row →
      times !! i = field df "timestamp" row ∧
      gps_speed !! i = field df "speed" row ∧
      entry accelerations 0 i = field df "ax" row ∧
      entry accelerations 1 i = field df "ay" row ∧
      entry accelerations 2 i = field df "az" row ∧
      entry angular_velocities 0 i = field df "gx" row ∧
      entry angular_velocities 1 i = field df "gy" row ∧
      entry angular_velocities 2 i = field df "gz" row.
Proof.
  intros Ht Hcols. unfold get_vectors. rewrite bool_decide_eq_true_2 by done.
  change inertial_columns
    with (["ax"; "ay"; "az"] ++ ["gx"; "gy"; "gz"] ++ ["timestamp"] ++ ["speed"])%list
    in Hcols.
  rewrite !has_columns_app in Hcols. destruct Hcols as (Hacc & Hang & Hts & Hsp).
  destruct (cols_values_cases df ["ax"; "ay"; "az"])
    as [(_ & acc & Hacc') | (name & Hin & Hout & _)].
  2:{ destruct Hout. unfold has_columns in Hacc. rewrite Forall_forall in Hacc. eauto. }
  destruct (cols_values_cases df ["gx"; "gy"; "gz"])
    as [(_ & ang & Hang') | (name & Hin & Hout & _)].
  2:{ destruct Hout. unfold has_columns in Hang. rewrite Forall_forall in Hang. eauto. }
  destruct (col_values_cases df "timestamp") as [(_ & its & Hits & Hts') | [Hout _]].
  2:{ destruct Hout. by apply has_columns_singleton. }
  destruct (col_values_cases df "speed") as [(_ & isp & Hisp & Hsp') | [Hout _]].
  2:{ destruct Hout. by apply has_columns_singleton. }
  rewrite Hacc', Hang', Hts', Hsp'. simpl.
  eexists _, _, _, _. split; [reflexivity|]. split.
  - simpl. rewrite !length_map.
    split; [done|]. split; [done|].
    split; by eapply (cols_values_shape df [_; _; _]).
  - intros i row Hrow.
    split; [by eapply col_values_lookup|].
    split; [by eapply col_values_lookup|].
    repeat split; by eapply cols_values_entry.
Qed.

(** X5.  On a table that lacks one of the columns its branch reads,
    [get_vectors] raises [KeyError] with the name of a column the table
    lacks, for the inertial and for the full inertial types alike. *)
Theorem get_vectors_missing_column (df : DataFrame R) (t : InputType) :
  (t = INERTIAL ∨ t = UNMOD_INERTIAL) ∧ ¬ has_columns df inertial_columns
  ∨ t = FULLINERTIAL ∧ ¬ has_columns df fullinertial_columns →
  ∃ name, (name ∉ df_columns df) ∧
          get_vectors interp1d df t = Raise (KeyError name).
Proof.
  intros [[Ht Hcols] | [-> Hcols]]; unfold get_vectors.
  - rewrite bool_decide_eq_true_2 by done.
    change inertial_columns
      with (["ax"; "ay"; "az"] ++ ["gx"; "gy"; "gz"] ++ ["timestamp"] ++ ["speed"])%list
      in Hcols.
    rewrite !has_columns_app in Hcols.
    destruct (cols_values_cases df ["ax"; "ay"; "az"])
      as [(Hacc & acc & ->) | (name & _ & Hout & ->)]; [|by eauto].
    destruct (cols_values_cases df ["gx"; "gy"; "gz"])
      as [(Hang & ang & ->) | (name & _ & Hout & ->)]; [|by eauto].
    destruct (col_values_cases df "timestamp") as [(Hts & ? & _ & ->) | [Hout ->]];
      [|by eauto].
    destruct (col_values_cases df "speed") as [(Hsp & ? & _ & ->) | [Hout ->]];
      [|by eauto].
    destruct Hcols. by rewrite !has_columns_singleton.
  - rewrite bool_decide_eq_false_2 by (intros [|]; discriminate).
    rewrite bool_decide_eq_true_2 by done.
    change fullinertial_columns
      with (["lon"; "lat"] ++ ["alt"] ++ ["ax"; "ay"; "az"] ++ ["gx"; "gy"; "gz"]
            ++ ["timestamp"] ++ ["speed"])%list in Hcols.
    assert (has_columns df ["lon"; "lat"; "alt"]
            ↔ has_columns df ["lon"; "lat"] ∧ has_columns df ["alt"]) as Hsplit
      by apply (has_columns_app df ["lon"; "lat"] ["alt"]).
    rewrite !has_columns_app in Hcols.
    destruct (cols_values_cases df ["lon"; "lat"])
      as [(Hco & co & ->) | (name & _ & Hout & ->)]; [|by eauto].
    destruct (col_values_cases df "alt") as [(Halt & ? & _ & ->) | [Hout ->]];
      [|by eauto].
    destruct (cols_values_cases df ["ax"; "ay"; "az"])
      as [(Hacc & acc & ->) | (name & _ & Hout & ->)]; [|by eauto].
    destruct (cols_values_cases df ["gx"; "gy"; "gz"])
      as [(Hang & ang & ->) | (name & _ & Hout & ->)]; [|by eauto].
    destruct (col_values_cases df "timestamp") as [(Hts & ? & _ & ->) | [Hout ->]];
      [|by eauto].
    destruct (col_values_cases df "speed") as [(Hsp & ? & _ & ->) | [Hout ->]];
      [|by eauto].
    destruct Hcols. by rewrite !has_columns_singleton.
Qed.

Lemma py_slice_length_le {A} (start stop : option Z) (l : list A) :
  (length (py_slice start stop l) ≤ length l)%nat.
Proof. unfold py_slice. rewrite length_drop, length_take. lia. Qed.

Lemma dropna_Ok (df df' : DataFrame R) (name : string) :
  dropna df name = Ok df' →
  df_columns df' = df_columns df ∧ (shape0 df' ≤ shape0 df)%nat.
Proof.
  unfold dropna. intros Hd. bind_inv Hd as i Hi. injection Hd as <-.
  split; [done|]. unfold shape0. simpl. apply length_filter.
Qed.

(** The form of the value [get_vectors] returns goes with the type. *)
Lemma get_vectors_kind (df : DataFrame R) (t : InputType) (v : Vectors R) :
  get_vectors interp1d df t = Ok v → t ∈ types_of v.
Proof.
  unfold get_vectors. repeat case_bool_decide; intros Hgv.
  - do 4 bind_inv Hgv. injection Hgv as <-. simpl.
    rewrite !elem_of_cons. tauto.
  - do 6 bind_inv Hgv. injection Hgv as <-. simpl.
    rewrite !elem_of_cons. tauto.
  - do 11 bind_inv Hgv. injection Hgv as <-. simpl.
    rewrite !elem_of_cons. tauto.
  - injection Hgv as <-. simpl. rewrite !elem_of_cons.
    destruct t; tauto.
Qed.

Lemma get_vectors_aligned (df : DataFrame R) (t : InputType) (v : Vectors R) :
  get_vectors interp1d df t = Ok v →
  ∃ n, (n ≤ shape0 df)%nat ∧ vectors_aligned v n.
Proof.
  unfold get_vectors. repeat case_bool_decide; intros Hgv.
  - bind_inv Hgv as acc Hacc. bind_inv Hgv as ang Hang.
    bind_inv Hgv as times Htimes. bind_inv Hgv as speed Hspeed.
    injection Hgv as <-. exists (shape0 df). split; [done|].
    unfold vectors_aligned. split_and!.
    + by eapply col_values_length.
    + by eapply col_values_length.
    + by eapply (cols_values_shape df [_; _; _]).
    + by eapply (cols_values_shape df [_; _; _]).
  - bind_inv Hgv as co Hco. bind_inv Hgv as alt Halt.
    bind_inv Hgv as acc Hacc. bind_inv Hgv as ang Hang.
    bind_inv Hgv as times Htimes. bind_inv Hgv as speed Hspeed.
    injection Hgv as <-. exists (shape0 df). split; [done|].
    unfold vectors_aligned. split_and!.
    + by eapply col_values_length.
    + left. by eapply (cols_values_shape df [_; _]).
    + by eapply col_values_length.
    + by eapply col_values_length.
    + by eapply (cols_values_shape df [_; _; _]).
    + by eapply (cols_values_shape df [_; _; _]).
  - bind_inv Hgv as gnss Hgnss. bind_inv Hgv as gnss_data Hdata.
    bind_inv Hgv as gnss_times Hgnss_times. bind_inv Hgv as coord_func Hfit.
    bind_inv Hgv as df' Hdf'.
    bind_inv Hgv as acc Hacc. bind_inv Hgv as ang Hang.
    bind_inv Hgv as times Htimes. bind_inv Hgv as pairs Hpairs.
    bind_inv Hgv as alt Halt. bind_inv Hgv as speed Hspeed.
    injection Hgv as <-. apply dropna_Ok in Hdf' as [_ Hle].
    exists (shape0 df'). split; [done|].
    apply mapM_Ok_length in Hpairs, Halt.
    rewrite (col_values_length _ _ _ Htimes) in Hpairs, Halt.
    assert (shape (array_T 2 pairs) 2 (shape0 df')
            ∨ shape0 df' = 0%nat ∧ array_T 2 pairs = []) as Hco.
    { destruct pairs as [|pair pairs]; [right; by split|]. left.
      rewrite <-Hpairs. apply transpose_rows_shape. }
    unfold vectors_aligned. split_and!; try done.
    + by eapply col_values_length.
    + by eapply col_values_length.
    + by eapply (cols_values_shape df' [_; _; _]).
    + by eapply (cols_values_shape df' [_; _; _]).
  - injection Hgv as <-. exists 0%nat. split; [lia | done].
Qed.

Section Parsed.
Variables (files : string → option string) (path content : string).
Variable df : DataFrame R.
Hypothesis Hfile : files path = Some content.
Hypothesis Hcsv : read_csv (strip hash_tab content) = Some df.

(** X6.  Whatever [parse_input] returns, all its series have the same
    number of samples, and no more samples than the file has rows; the
    coordinates are 2-by-n, except that an unmodified log without a single
    inertial row gives the empty one-dimensional array. *)
Theorem parse_input_aligned accepted slice_start slice_end (v : Vectors R) :
  parse_input interp1d read_csv files path accepted slice_start slice_end = Ok v →
  ∃ n, (n ≤ shape0 df)%nat ∧ vectors_aligned v n.
Proof.
  rewrite (parse_input_frame _ _ _ _ _ _ _ _ _ Hfile Hcsv).
  destruct (parse_frame_cases interp1d df path accepted slice_start slice_end)
    as [[_ ->] | [(_ & _ & ->) | [(_ & _ & _ & ->) | [(_ & _ & _ & _ & ->)
       | (_ & _ & _ & _ & ->)]]]]; try discriminate.
  intros (n & Hn & Hv)%get_vectors_aligned. exists n. split; [|done].
  etrans; [exact Hn|]. apply py_slice_length_le.
Qed.

(** X7.  The form of what [parse_input] returns is fixed by the detected
    type, which is one of the accepted ones: a 4-tuple for the two inertial
    types, a 6-tuple for the two full inertial types, [None] for the
    rest. *)
Theorem parse_input_kind accepted slice_start slice_end (v : Vectors R) :
  parse_input interp1d read_csv files path accepted slice_start slice_end = Ok v →
  detect_input_type df path ∈ accepted ∧
  detect_input_type df path ∈ types_of v ∧
  detect_input_type df path ≠ UNRECOGNIZED.
Proof.
  rewrite (parse_input_frame _ _ _ _ _ _ _ _ _ Hfile Hcsv).
  destruct (parse_frame_cases interp1d df path accepted slice_start slice_end)
    as [[_ ->] | [(_ & _ & ->) | [(_ & _ & _ & ->) | [(_ & _ & _ & _ & ->)
       | (Ht & _ & _ & Ha & ->)]]]]; try discriminate.
  intros Hk%get_vectors_kind. done.
Qed.
End Parsed.

(** X8.  With [UNMOD_FULLINERTIAL] as the only accepted type, as the entry
    point calls it, [parse_input] returns nothing but 6-tuples: the
    unpacking of line 48 of [__init__.py] always has its six values. *)
Theorem parse_input_six_values files path slice_start slice_end (v : Vectors R) :
  parse_input interp1d read_csv files path [UNMOD_FULLINERTIAL]
    slice_start slice_end = Ok v →
  ∃ times coordinates altitudes gps_speed accelerations angular_velocities,
    v = FullInertial times coordinates altitudes gps_speed accelerations
          angular_velocities.
Proof.
  unfold parse_input. intros Hp.
  bind_inv Hp as content Hfile. bind_inv Hp as df Hcsv.
  destruct (parse_frame_cases interp1d df path [UNMOD_FULLINERTIAL]
              slice_start slice_end)
    as [[_ Hr] | [(_ & _ & Hr) | [(_ & _ & _ & Hr) | [(_ & _ & _ & _ & Hr)
       | (_ & _ & _ & Ha & Hr)]]]]; rewrite Hr in Hp; try discriminate.
  apply list_elem_of_singleton in Ha. apply get_vectors_kind in Hp.
  rewrite Ha in Hp.
  destruct v; simpl in Hp; [| by eauto 10 |];
    rewrite !elem_of_cons, elem_of_nil in Hp; intuition discriminate.
Qed.
End Vectors.

(** ** The four messages of [parse_input] and the slice it takes *)

Section Messages.
Context {R : Type} `{!Scalar R}.
Variable interp1d : list R → Mat R → option (R → list R).
Variable read_csv : string → option (DataFrame R).
Variables (files : string → option string) (path content : string).
Variable df : DataFrame R.
Hypothesis Hfile : files path = Some content.
Hypothesis Hcsv : read_csv (strip hash_tab content) = Some df.

Lemma get_vectors_no_message (d : DataFrame R) t msg :
  get_vectors interp1d d t ≠ Raise (Exception msg).
Proof. intros Hgv. by apply get_vectors_Raise in Hgv. Qed.

(** X9.  Each of the four messages of [parse_input] has its own condition,
    tested in this order: unrecognized type, negative start, end beyond the
    rows, type not accepted.  A bad start hides a bad end, and a bad bound
    hides a type that is not accepted. *)
Theorem parse_input_messages accepted slice_start slice_end :
  let t := detect_input_type df path in
  let r := parse_input interp1d read_csv files path accepted slice_start slice_end in
  (r = Raise unrecognized_error ↔ t = UNRECOGNIZED) ∧
  (r = Raise slice_start_error ↔ t ≠ UNRECOGNIZED ∧ start_rejected slice_start) ∧
  (r = Raise slice_end_error
   ↔ t ≠ UNRECOGNIZED ∧ ¬ start_rejected slice_start ∧ end_rejected df slice_end) ∧
  (r = Raise not_accepted_error
   ↔ t ≠ UNRECOGNIZED ∧ ¬ start_rejected slice_start ∧ ¬ end_rejected df slice_end
     ∧ (t ∉ accepted)).
Proof.
  intros t r. subst t r. rewrite (parse_input_frame _ _ _ _ _ _ _ _ _ Hfile Hcsv).
  destruct (parse_frame_cases interp1d df path accepted slice_start slice_end)
    as [[Hu ->] | [(Ht & Hs & ->) | [(Ht & Hs & He & ->) | [(Ht & Hs & He & Ha & ->)
       | (Ht & Hs & He & Ha & ->)]]]].
  - split_and!; split; try done; try tauto.
  - split_and!; split; try done; try tauto.
  - split_and!; split; try done; try tauto.
  - split_and!; split; try done; try tauto.
  - split_and!; split; try tauto;
      intros Hgv; by apply get_vectors_no_message in Hgv.
Qed.
End Messages.

Section Slicing.
Context {R : Type} `{!Scalar R}.

Lemma drop_min {A} (a n : nat) (l : list A) :
  (length l ≤ n)%nat → drop (a `min` n) l = drop a l.
Proof.
  intros Hl. destruct (decide (a ≤ n)%nat) as [Ha|Ha].
  - by rewrite Nat.min_l.
  - rewrite Nat.min_r by lia. by rewrite !drop_ge by lia.
Qed.

(** X10.  Bounds that pass the two tests of [parse_input] select a plain
    range of rows: from row [slice_start] (0 when absent) up to, not
    including, row [slice_end], or the row [-slice_end] places before the
    end when [slice_end] is negative.  No bound wraps around and the end is
    never clamped. *)
Theorem slice_rows_validated (df : DataFrame R) (slice_start slice_end : option Z) :
  ¬ start_rejected slice_start →
  ¬ end_rejected df slice_end →
  df_rows (slice_rows slice_start slice_end df)
  = drop (start_index slice_start)
      (take (end_index (shape0 df) slice_end) (df_rows df)) ∧
  shape0 (slice_rows slice_start slice_end df)
  = (end_index (shape0 df) slice_end `min` shape0 df - start_index slice_start)%nat.
Proof.
  intros Hs He.
  assert (df_rows (slice_rows slice_start slice_end df)
          = drop (start_index slice_start)
              (take (end_index (shape0 df) slice_end) (df_rows df))) as Hrows.
  { unfold slice_rows, py_slice, shape0. simpl.
    set (n := length (df_rows df)).
    assert (slice_bound n n slice_end = end_index n slice_end) as ->.
    { unfold slice_bound, end_index. destruct slice_end as [e|]; [|done].
      destruct (Z.ltb_spec e 0); [lia|].
      apply Nat.min_l. destruct (decide (Z.to_nat e ≤ n)%nat) as [|Hgt]; [done|].
      destruct He. exists e. split; [done|]. unfold n in Hgt. lia. }
    unfold slice_bound, start_index. destruct slice_start as [s|]; [|done].
    destruct (Z.ltb_spec s 0) as [Hneg|_].
    { destruct Hs. by exists s. }
    apply drop_min. rewrite length_take. lia. }
  split; [done|]. unfold shape0 at 1. rewrite Hrows.
  rewrite length_drop, length_take. unfold shape0. lia.
Qed.
End Slicing.

(** ** What the entry point refuses before any stage runs *)

Section Refusals.
Context {R : Type} `{!Scalar R}.
Variable st : Stages R.

Lemma front_parse_error (w : World) (path : string) (e : Error) :
  parse_input (interp1d st) (read_csv st) (files w) path [UNMOD_FULLINERTIAL]
    None None = Raise e →
  get_positions_times st w path = Raise e.
Proof. intros Hp. unfold get_positions_times, front. by rewrite Hp. Qed.

Lemma parse_input_refused (files : string → option string)
    (path content : string) (df : DataFrame R) :
  files path = Some content →
  read_csv st (strip hash_tab content) = Some df →
  detect_input_type df path ≠ UNMOD_FULLINERTIAL →
  parse_input (interp1d st) (read_csv st) files path [UNMOD_FULLINERTIAL] None None
  = Raise (if bool_decide (detect_input_type df path = UNRECOGNIZED)
           then unrecognized_error else not_accepted_error).
Proof.
  intros Hfile Hcsv Ht. rewrite (parse_input_frame _ _ _ _ _ _ _ _ _ Hfile Hcsv).
  destruct (parse_frame_cases (interp1d st) df path [UNMOD_FULLINERTIAL] None None)
    as [[Hu ->] | [(_ & Hs & _) | [(_ & _ & He & _) | [(Hu & _ & _ & _ & ->)
       | (_ & _ & _ & Ha & _)]]]].
  - by rewrite bool_decide_eq_true_2.
  - by destruct Hs as (? & [=] & _).
  - by destruct He as (? & [=] & _).
  - by rewrite bool_decide_eq_false_2.
  - by apply list_elem_of_singleton in Ha.
Qed.

(** X11.  The entry point fails before any stage runs when the file is
    missing, when pandas rejects it, when its type is not recognized, and
    when its type is any other than [UNMOD_FULLINERTIAL]; each case has its
    own error. *)
Theorem get_positions_times_refuses (w : World) (path : string) :
  (files w path = None →
   get_positions_times st w path = Raise FileNotFoundError) ∧
  (∀ content, files w path = Some content →
     read_csv st (strip hash_tab content) = None →
     get_positions_times st w path = Raise (LibraryError "read_csv")) ∧
  (∀ content df, files w path = Some content →
     read_csv st (strip hash_tab content) = Some df →
     detect_input_type df path = UNRECOGNIZED →
     get_positions_times st w path = Raise unrecognized_error) ∧
  (∀ content df, files w path = Some content →
     read_csv st (strip hash_tab content) = Some df →
     detect_input_type df path ≠ UNRECOGNIZED →
     detect_input_type df path ≠ UNMOD_FULLINERTIAL →
     get_positions_times st w path = Raise not_accepted_error).
Proof.
  split_and!.
  - intros Hfile. apply front_parse_error. unfold parse_input. by rewrite Hfile.
  - intros content Hfile Hcsv. apply front_parse_error. unfold parse_input.
    rewrite Hfile. simpl. by rewrite Hcsv.
  - intros content df Hfile Hcsv Ht. apply front_parse_error.
    rewrite (parse_input_refused _ _ _ _ Hfile Hcsv) by (rewrite Ht; discriminate).
    by rewrite bool_decide_eq_true_2.
  - intros content df Hfile Hcsv Hu Ht. apply front_parse_error.
    rewrite (parse_input_refused _ _ _ _ Hfile Hcsv) by done.
    by rewrite bool_decide_eq_false_2.
Qed.

(** X12.  A path in which "acc", "gnss" or "gyr" occurs anywhere, a
    directory name included, makes the entry point refuse the file as not
    accepted, whatever the file holds. *)
Theorem get_positions_times_refuses_by_name (w : World) (path content : string)
    (df : DataFrame R) :
  files w path = Some content →
  read_csv st (strip hash_tab content) = Some df →
  occurs "acc" path ∨ occurs "gnss" path ∨ occurs "gyr" path →
  get_positions_times st w path = Raise not_accepted_error.
Proof.
  intros Hfile Hcsv Hname. apply front_parse_error.
  pose proof (detect_input_type_cases df path) as Hcases. simpl in Hcases.
  assert (detect_input_type df path ∈ [ACCELERATION; GNSS; GYROSCOPE]) as Ht.
  { rewrite !elem_of_cons. intuition. }
  rewrite (parse_input_refused _ _ _ _ Hfile Hcsv).
  - rewrite bool_decide_eq_false_2; [done|].
    intros Hu. rewrite Hu, !elem_of_cons, elem_of_nil in Ht. intuition discriminate.
  - intros Hu. rewrite Hu, !elem_of_cons, elem_of_nil in Ht. intuition discriminate.
Qed.
End Refusals.

(** ** Line 157: [file_content.strip("#\t")] *)

Lemma char_in_hash_tab (c : ascii) : char_in hash_tab c = true ↔ margin c.
Proof.
  unfold char_in, hash_tab, margin. rewrite bool_decide_eq_true. simpl.
  rewrite !elem_of_cons, elem_of_nil. tauto.
Qed.

Lemma lstrip_list_spec (chars : string) (l : list ascii) :
  ∃ before,
    l = (before ++ lstrip_list chars l)%list ∧
    Forall (λ c, char_in chars c = true) before ∧
    ∀ c, head (lstrip_list chars l) = Some c → char_in chars c = false.
Proof.
  induction l as [|c l (before & Hl & Hbefore & Hhead)]; simpl.
  - exists []. split; [done|]. split; [constructor | done].
  - destruct (char_in chars c) eqn:Hc.
    + exists (c :: before). split; [simpl; by f_equal|].
      split; [by constructor | done].
    + exists []. split; [done|]. split; [constructor|].
      simpl. by intros ? [= <-].
Qed.

(** X13.  The text handed to pandas is the file content without the "#"
    and tabs at its two ends: what is cut off holds nothing else, and what
    is left neither starts nor ends with one of them. *)
Theorem strip_hash_tab_spec (content : string) :
  let stripped := list_ascii_of_string (strip hash_tab content) in
  ∃ before after,
    list_ascii_of_string content = (before ++ stripped ++ after)%list ∧
    Forall margin before ∧ Forall margin after ∧
    (∀ c, head stripped = Some c → ¬ margin c) ∧
    (∀ c, last stripped = Some c → ¬ margin c).
Proof.
  unfold strip. rewrite list_ascii_of_string_of_list_ascii.
  set (l := list_ascii_of_string content).
  destruct (lstrip_list_spec hash_tab l) as (before & Hl & Hbefore & Hhead).
  set (m := lstrip_list hash_tab l) in *.
  destruct (lstrip_list_spec hash_tab (rev m)) as (after & Hm & Hafter & Hlast).
  set (m' := lstrip_list hash_tab (rev m)) in *.
  assert (m = (rev m' ++ rev after)%list) as Hm'.
  { rewrite <-(rev_involutive m), Hm. by rewrite rev_app_distr. }
  exists before, (rev after). simpl. split; [by rewrite Hl, Hm'|].
  split.
  { eapply Forall_impl; [exact Hbefore|]. intros c. by rewrite char_in_hash_tab. }
  split.
  { apply Forall_forall. intros c Hc%list_elem_of_In%in_rev%list_elem_of_In.
    rewrite Forall_forall in Hafter. apply char_in_hash_tab. by apply Hafter. }
  split.
  - intros c Hc Hmargin. apply char_in_hash_tab in Hmargin.
    rewrite (Hhead c) in Hmargin; [done|].
    rewrite Hm'. destruct (rev m'); [done|]. exact Hc.
  - intros c Hc Hmargin. apply char_in_hash_tab in Hmargin.
    rewrite (Hlast c) in Hmargin; [done|].
    apply last_Some in Hc as [l' Hl'].
    rewrite <-(rev_involutive m'), Hl', rev_app_distr. done.
Qed.

(** ** Line 80: the errors and the empty interval *)

Section Gravity.
Context {R : Type} `{!Scalar R}.

(** X14.  Line 80 raises exactly when the accelerations have fewer than
    three rows or no stationary interval was found, and what it raises is
    [IndexError]. *)
Theorem remove_g_raises (s : Locals R) (stationary_times : list (nat * nat))
    (e : Error) :
  remove_g s stationary_times = Raise e
  ↔ e = IndexError ∧
    ((length (l_accelerations s) ≤ 2)%nat ∨ stationary_times = []).
Proof.
  unfold remove_g.
  destruct (l_accelerations s !! 2%nat) as [z|] eqn:Hz; simpl.
  - apply lookup_lt_Some in Hz.
    destruct stationary_times as [|[a b] sts]; simpl.
    + split; [intros [= <-]; by auto | by intros [-> _]].
    + split; [done|]. intros [_ [? | [=]]]. lia.
  - apply lookup_ge_None in Hz.
    split; [intros [= <-]; split; [done | left; lia] | by intros [-> _]].
Qed.

(** X15.  When the first stationary interval is empty, or starts past the
    last sample, the mean is that of no sample at all: every vertical
    sample has [0 / 0] taken off it (NaN for floats), and line 80 raises
    nothing. *)
Theorem remove_g_empty_interval (s : Locals R)
    (stationary_times : list (nat * nat)) (z : list R) (a b : nat) :
  l_accelerations s !! 2%nat = Some z →
  stationary_times !! 0%nat = Some (a, b) →
  (b ≤ a)%nat ∨ (length z ≤ a)%nat →
  ∃ s',
    remove_g s stationary_times = Ok s' ∧
    l_accelerations s' !! 2%nat
    = Some (map (λ x, sub x (div zero (of_Z 0))) z).
Proof.
  intros Hz Hfirst Hempty. unfold remove_g. rewrite Hz, Hfirst. simpl.
  eexists. split; [reflexivity|]. simpl.
  rewrite list_lookup_insert_eq by by eapply lookup_lt_Some.
  assert (py_slice (Some (Z.of_nat a)) (Some (Z.of_nat b)) z = []) as ->; [|done].
  unfold py_slice, slice_bound.
  destruct (Z.ltb_spec (Z.of_nat a) 0); [lia|].
  destruct (Z.ltb_spec (Z.of_nat b) 0); [lia|].
  apply drop_ge. rewrite length_take. lia.
Qed.
End Gravity.

(** ** Line 61: the GNSS positions cut to the span of the filtered series *)

Section Trim.
Context {R : Type} `{!Scalar R}.

Lemma py_slice_trim_lookup {A} (k : nat) (l : list A) (i : nat) :
  (0 < k)%nat →
  py_slice (Some (Z.of_nat k)) (Some (- Z.of_nat k)) l !! i
  = if decide (i < length l - 2 * k)%nat then l !! (k + i)%nat else None.
Proof.
  intros Hk. unfold py_slice, slice_bound.
  destruct (Z.ltb_spec (Z.of_nat k) 0) as [|_]; [lia|].
  destruct (Z.ltb_spec (- Z.of_nat k) 0) as [_|]; [|lia].
  rewrite lookup_drop. case_decide as Hi.
  - rewrite lookup_take_lt by lia. f_equal. lia.
  - apply lookup_ge_None. rewrite length_take. lia.
Qed.

(** X16.  After line 61, sample [i] of the GNSS positions is sample
    [i + 10] of the positions that came out of [get_positions], for the
    [N - 20] samples that are left; a recording of 20 samples or fewer
    leaves none. *)
Theorem smooth_gnss_positions N (times : list R) (acc ang gnss : Mat R) :
  Forall (λ row, length row = N) gnss →
  let '(_, _, _, gnss') := smooth window_size times acc ang gnss in
  length gnss' = length gnss ∧
  ∀ k i,
    entry gnss' k i
    = if decide (i < N - 20)%nat then entry gnss k (10 + i) else None.
Proof.
  intros Hgnss. unfold smooth, reduce_disturbance.
  split; [by rewrite length_map|].
  intros k i. unfold entry. change (map ?f ?l) with (f <$> l).
  rewrite list_lookup_fmap.
  destruct (gnss !! k) as [row|] eqn:Hrow; simpl; [|by case_decide].
  change (round_half window_size) with (Z.of_nat 10).
  rewrite py_slice_trim_lookup by lia.
  rewrite (Forall_lookup_1 _ _ _ _ Hgnss Hrow). done.
Qed.
End Trim.

(** ** Lines 112-132: the unmodified full inertial log *)

Section Unmodified.
Context {R : Type} `{!Scalar R}.
Variable interp1d : list R → Mat R → option (R → list R).





End Unmodified.

(** ** The time vector the entry point returns *)

Section ReturnedTimes.
Context {R : Type} `{!Scalar R}.
Variable st : Stages R.

Lemma remove_g_times (s s' : Locals R) stationary_times :
  remove_g s stationary_times = Ok s' →
  l_times s' = l_times s ∧ l_gnss_positions s' = l_gnss_positions s.
Proof.
  unfold remove_g. intros Hg. bind_inv Hg as z Hz. bind_inv Hg as first Hfirst.
  by injection Hg as <-.
Qed.

(** X18.  The time vector the entry point returns is the one
    [normalize_timestamp] made of the times of line 57; no later line
    touches it, whichever way the sign test goes. *)
Theorem get_positions_times_returned_times (w : World) (path : string)
    (position : Mat R) (times : list R) :
  get_positions_times st w path = Ok (position, times) →
  ∃ s, front st w path = Ok s ∧ normalize_timestamp st (l_times s) = Ok times.
Proof.
  unfold get_positions_times. intros Hrun. bind_inv Hrun as s Hfront.
  exists s. split; [done|]. unfold back in Hrun.
  bind_inv Hrun as stationary_times Hstationary.
  bind_inv Hrun as ang1 Hdrift.
  bind_inv Hrun as times1 Hnormalize. simpl in Hrun, Hnormalize.
  bind_inv Hrun as [acc2 ang2] Hz. simpl in Hrun.
  bind_inv Hrun as s3 Hg. apply remove_g_times in Hg as [Htimes _].
  simpl in Htimes.
  bind_inv Hrun as acc4 Hxy. simpl in Hrun.
  bind_inv Hrun as acc5 Hrotate. simpl in Hrun.
  bind_inv Hrun as acc6 Halign. simpl in Hrun.
  bind_inv Hrun as speed0 Hspeed.
  bind_inv Hrun as velocities Hintegrate.
  bind_inv Hrun as necessary Hsign.
  destruct necessary; simpl in Hrun; bind_inv Hrun as pos Hpos;
    injection Hrun as _ <-; by rewrite Htimes.
Qed.
End ReturnedTimes.

(** ** The further properties on the example recordings *)

Lemma detect_input_type_by_name_witness :
  detect_input_type Example.short_log Example.inertial_path
  = detect_input_type Example.recording Example.inertial_path.
Proof.
  apply (detect_input_type_by_name Example.short_log Example.recording
           Example.inertial_path).
  right. right. right. by exists "logs/", ".tsv".
Defined.

Lemma get_vectors_inertial_witness :
  ∃ times gps_speed accelerations angular_velocities,
    get_vectors Example.fit Example.inertial_log INERTIAL
    = Ok (Inertial times gps_speed accelerations angular_velocities) ∧
    times !! 1%nat = Some 1 ∧ entry accelerations 2 1 = Some 9.
Proof.
  destruct (get_vectors_inertial Example.fit Example.inertial_log INERTIAL)
    as (times & sp & acc & ang & Hgv & _ & Hcells).
  { by left. }
  { unfold has_columns, inertial_columns. simpl.
    repeat (constructor; [rewrite !elem_of_cons; tauto|]). constructor. }
  exists times, sp, acc, ang. split; [exact Hgv|].
  destruct (Hcells 1%nat [1; 6; 7; 8; 9; 10; 11; 12] eq_refl)
    as (-> & _ & _ & _ & -> & _).
  split; reflexivity.
Defined.

Lemma get_vectors_missing_column_witness :
  ∃ name, (name ∉ df_columns Example.short_log) ∧
          get_vectors Example.fit Example.short_log INERTIAL
          = Raise (KeyError name).
Proof.
  apply (get_vectors_missing_column Example.fit Example.short_log INERTIAL).
  left. split; [by left|].
  unfold has_columns, inertial_columns. intros Hall.
  rewrite Forall_forall in Hall. specialize (Hall "gx").
  simpl in Hall. rewrite !elem_of_cons, elem_of_nil in Hall.
  destruct Hall as [|[|[|[|[]]]]]; [tauto | discriminate..].
Defined.

Lemma parse_input_aligned_witness :
  ∃ v n, parse_input Example.fit Example.full_csv Example.any_file Example.path
           all_input_types (Some 2) (Some (-2)) = Ok v ∧
         (n ≤ 24)%nat ∧ vectors_aligned v n.
Proof.
  destruct (parse_input Example.fit Example.full_csv Example.any_file Example.path
              all_input_types (Some 2) (Some (-2))) as [v|e] eqn:Hp;
    [|vm_compute in Hp; discriminate].
  destruct (parse_input_aligned Example.fit Example.full_csv Example.any_file
              Example.path "#	t" Example.recording eq_refl eq_refl
              all_input_types (Some 2) (Some (-2)) v Hp) as (n & Hn & Hv).
  exists v, n. split; [reflexivity|]. split; [exact Hn | exact Hv].
Defined.

Lemma parse_input_kind_witness :
  detect_input_type Example.inertial_log Example.inertial_path
  ∈ [INERTIAL; UNMOD_INERTIAL].
Proof.
  destruct (parse_input Example.fit Example.inertial_csv Example.any_file
              Example.inertial_path all_input_types None None) as [v|e] eqn:Hp;
    [|vm_compute in Hp; discriminate].
  destruct (parse_input_kind Example.fit Example.inertial_csv Example.any_file
              Example.inertial_path "#	t" Example.inertial_log eq_refl eq_refl
              all_input_types None None v Hp) as (_ & Hk & _).
  vm_compute in Hp. injection Hp as <-. exact Hk.
Defined.

Lemma parse_input_six_values_witness :
  ∃ times coordinates altitudes gps_speed accelerations angular_velocities,
    Ok (FullInertial times coordinates altitudes gps_speed accelerations
          angular_velocities)
    = parse_input Example.fit Example.full_csv Example.any_file Example.path
        [UNMOD_FULLINERTIAL] None None.
Proof.
  destruct (parse_input Example.fit Example.full_csv Example.any_file Example.path
              [UNMOD_FULLINERTIAL] None None) as [v|e] eqn:Hp;
    [|vm_compute in Hp; discriminate].
  destruct (parse_input_six_values Example.fit Example.full_csv Example.any_file
              Example.path None None v Hp) as (t & co & alt & sp & acc & ang & ->).
  by exists t, co, alt, sp, acc, ang.
Defined.

Lemma parse_input_messages_witness :
  parse_input Example.fit Example.short_csv Example.any_file Example.acc_path
    [UNMOD_FULLINERTIAL] (Some (-1)) (Some 7)
  = Raise slice_start_error.
Proof.
  apply (parse_input_messages Example.fit Example.short_csv Example.any_file
           Example.acc_path "#	t" Example.short_log eq_refl eq_refl
           [UNMOD_FULLINERTIAL] (Some (-1)) (Some 7)).
  split; [vm_compute; discriminate|]. exists (-1). split; [reflexivity | lia].
Defined.

Lemma slice_rows_validated_witness :
  df_rows (slice_rows (Some 1) (Some (-1)) Example.inertial_log)
  = drop 1 (take 1 (df_rows Example.inertial_log)).
Proof.
  apply (slice_rows_validated Example.inertial_log (Some 1) (Some (-1))).
  - intros (s & [= <-] & Hs). lia.
  - intros (e & [= <-] & He). vm_compute in He. discriminate.
Defined.

Lemma get_positions_times_refuses_by_name_witness :
  get_positions_times Example.resting Example.later_world Example.acc_path
  = Raise not_accepted_error.
Proof.
  apply (get_positions_times_refuses_by_name Example.resting Example.later_world
           Example.acc_path "#	t" Example.recording).
  - reflexivity.
  - reflexivity.
  - left. by exists "logs/", ".tsv".
Defined.

Lemma remove_g_empty_interval_witness :
  ∃ s', remove_g Example.locals [(2%nat, 2%nat)] = Ok s' ∧
        l_accelerations s' !! 2%nat = Some [10; 11; 12].
Proof.
  destruct (remove_g_empty_interval Example.locals [(2%nat, 2%nat)]
              [10; 11; 12] 2 2) as (s' & Hs' & Hz);
    [reflexivity | reflexivity | left; lia |].
  exists s'. split; [exact Hs' | exact Hz].
Defined.

Lemma smooth_gnss_positions_witness :
  let gnss := [map Z.of_nat (seq 0 24); map Z.of_nat (seq 100 24)] in
  let '(_, _, _, gnss') := smooth window_size [] [] [] gnss in
  entry gnss' 1 3 = Some 113 ∧ entry gnss' 1 4 = None.
Proof.
  intros gnss.
  assert (Forall (λ row, length row = 24%nat) gnss) as Hgnss
    by (repeat constructor).
  pose proof (smooth_gnss_positions 24 [] [] [] gnss Hgnss) as Hsmooth.
  destruct (smooth window_size [] [] [] gnss) as [[[t a] g] gnss'].
  destruct Hsmooth as [_ Hentry].
  split; rewrite Hentry; reflexivity.
Defined.


Lemma get_positions_times_returned_times_witness :
  ∃ s, front Example.resting Example.world Example.path = Ok s ∧
       normalize_timestamp Example.resting (l_times s) = Ok [10; 11; 12; 13].
Proof.
  apply (get_positions_times_returned_times Example.resting Example.world
           Example.path [[10; 11; 12; 13]; [20; 22; 24; 26]; [5; 5; 5; 5]]).
  reflexivity.
Defined.

Lemma detect_input_type_gnss_gyroscope_witness :
  occurs "gnss" Example.gnss_path ∧ ¬ occurs "acc" Example.gnss_path.
Proof.
  apply (detect_input_type_gnss_gyroscope Example.short_log Example.gnss_path).
  reflexivity.
Defined.

Lemma get_positions_times_refuses_witness :
  get_positions_times Example.resting Example.world Example.acc_path
  = Raise FileNotFoundError.
Proof.
  apply (get_positions_times_refuses Example.resting Example.world Example.acc_path).
  reflexivity.
Defined.

(** An unmodified log without a row: three rows of no acceleration, and the
    empty one-dimensional array for the coordinates. *)
Example get_vectors_no_sample :
  get_vectors Example.fit Example.empty_log UNMOD_FULLINERTIAL
  = Ok (FullInertial [] [] [] [] [[]; []; []] [[]; []; []]).
Proof. reflexivity. Qed.
